(** * Interface.py: range and round-robin partitioning of a ratings table

    A shallow embedding of [src/Interface.py].  The Python functions issue SQL
    statements through one psycopg2 connection; the embedding has

    - [Float64]: binary64 arithmetic as Python's [float] performs it
      (ratings, [delta], the bucket bounds), on the Standard Library's
      executable IEEE 754 specification;
    - [Storage]: the tables of the database and the SQL statements of the
      source, each a function on the table store that may raise;
    - [Tx]: a state-and-exception monad over the connection, which keeps the
      committed store apart from the store seen by the open transaction;
    - the six functions of the source, under their own names. *)

From Stdlib Require Import ZArith Bool Ascii String List Lia.
From Stdlib Require Import Floats.SpecFloat.
From stdpp Require Import base gmap strings list pretty.

Local Open Scope Z_scope.

(** ** Exceptions the code can raise (Python's and the storage layer's) *)

Inductive exn : Set :=
  | ZeroDivisionError      (* float division or modulo by 0.0 *)
  | OverflowError          (* int too large for a float; int(inf) *)
  | ValueError             (* int(nan) *)
  | TypeError              (* fetchone() gave None, then [0] *)
  | FileNotFoundError      (* open() on a missing path *)
  | IsADirectoryError      (* open() on a directory *)
  | UndefinedTable         (* relation does not exist *)
  | DuplicateTable         (* relation already exists *)
  | UndefinedColumn        (* column does not exist *)
  | NumericValueOutOfRange (* integer out of range *).

Inductive result (A : Type) : Type :=
  | Ok (a : A)
  | Error (e : exn).
Arguments Ok {A} a.
Arguments Error {A} e.

(** ** Binary64 arithmetic, as Python's float *)

Module Float64.

Definition prec : Z := 53.
Definition emax : Z := 1024.

Definition float : Set := spec_float.

Definition zero : float := S754_zero false.
(** The literal [5.0], that is 5 * 2^50 * 2^-50. *)
Definition five : float := S754_finite false 5629499534213120 (-50).

Definition is_nan (x : float) : bool :=
  match x with S754_nan => true | _ => false end.

Definition is_finite (x : float) : bool :=
  match x with S754_zero _ | S754_finite _ _ _ => true | _ => false end.

Definition is_zero (x : float) : bool :=
  match x with S754_zero _ => true | _ => false end.

Definition is_neg (x : float) : bool := SFltb x zero.

(** [float(n)] for a Python int: rounded to nearest even, OverflowError
    when the int is too large. *)
Definition of_int (n : Z) : result float :=
  match binary_normalize prec emax n 0 false with
  | S754_infinity _ => Error OverflowError
  | f => Ok f
  end.

Definition add (x y : float) : float := SFadd prec emax x y.
Definition mul (x y : float) : float := SFmul prec emax x y.

(** [x / y] on floats: Python raises on a zero divisor. *)
Definition truediv (x y : float) : result float :=
  if is_zero y then Error ZeroDivisionError else Ok (SFdiv prec emax x y).

(** C's [fmod]: x - trunc(x/y)*y, computed exactly.  Both operands are
    brought to the smaller exponent and the integer remainder is taken;
    the result has the sign of [x] and is representable, so that
    [binary_normalize] does not round. *)
Definition fmod (x y : float) : float :=
  match x, y with
  | S754_nan, _ | _, S754_nan => S754_nan
  | S754_infinity _, _ => S754_nan
  | _, S754_zero _ => S754_nan
  | S754_zero s, _ => S754_zero s
  | S754_finite _ _ _, S754_infinity _ => x
  | S754_finite sx mx ex, S754_finite sy my ey =>
      let e := Z.min ex ey in
      let X := Zpos mx * 2 ^ (ex - e) in
      let Y := Zpos my * 2 ^ (ey - e) in
      binary_normalize prec emax (cond_Zopp sx (Z.rem X Y)) e sx
  end.

(** [x % y] on floats (CPython's float_rem): fmod, then the result is given
    the sign of the divisor. *)
Definition rem (x y : float) : result float :=
  if is_zero y then Error ZeroDivisionError
  else
    let m := fmod x y in
    if is_zero m then Ok (S754_zero (is_neg y))
    else if negb (Bool.eqb (is_neg y) (is_neg m)) then Ok (add m y)
    else Ok m.

(** [int(x)]: truncation towards zero. *)
Definition to_int (x : float) : result Z :=
  match x with
  | S754_zero _ => Ok 0
  | S754_finite s m e =>
      Ok (cond_Zopp s (if 0 <=? e then Zpos m * 2 ^ e else Zpos m / 2 ^ (- e)))
  | S754_infinity _ => Error OverflowError
  | S754_nan => Error ValueError
  end.

(** Python's comparisons: every comparison with a NaN is false. *)
Definition ltb (x y : float) : bool := SFltb x y.
Definition leb (x y : float) : bool := SFleb x y.
Definition eqb (x y : float) : bool := SFeqb x y.

End Float64.

Import Float64.

(** ** The storage layer: tables and the SQL statements of the source *)

Module Storage.

(** A row of a ratings-shaped table: (userid INTEGER, movieid INTEGER,
    rating FLOAT). *)
Definition row : Type := Z * Z * float.

(** A line of the ratings file, UserID::MovieID::Rating::Timestamp, by its
    four values; the text format itself is not modelled. *)
Definition line : Type := Z * Z * float * Z.

Inductive table : Type :=
  | Ratings (rows : list row)   (* the ratings table and every partition *)
  | Metadata (vals : list Z).   (* roundrobin_metadata(next_use_partition int) *)

(** The user tables of the database, by name.  Names stand for the
    identifiers as PostgreSQL resolves them. *)
Abbreviation db := (gmap string table).

Definition int4 (z : Z) : bool := (-2147483648 <=? z) && (z <=? 2147483647).
Definition int8 (z : Z) : bool :=
  (-9223372036854775808 <=? z) && (z <=? 9223372036854775807).

(** A float interpolated into the SQL text by an f-string: a finite float
    is printed by repr and read back as the same float8; [inf] and [nan]
    are read as column names. *)
Definition literal (x : float) : result float :=
  if is_finite x then Ok x else Error UndefinedColumn.

(** Order of float8 values: NaN equals NaN and is above everything else. *)
Definition float8_cmp (a b : float) : comparison :=
  match SFcompare a b with
  | Some c => c
  | None => if is_nan a then (if is_nan b then Eq else Gt) else Lt
  end.
Definition float8_gt (a b : float) : bool :=
  match float8_cmp a b with Gt => true | _ => false end.
Definition float8_ge (a b : float) : bool :=
  match float8_cmp a b with Lt => false | _ => true end.
Definition float8_le (a b : float) : bool :=
  match float8_cmp a b with Gt => false | _ => true end.

Definition rating_of (r : row) : float := snd r.

(** CREATE TABLE name (userid INTEGER, movieid INTEGER, rating FLOAT) *)
Definition create_table (name : string) (d : db) : result db :=
  match d !! name with
  | Some _ => Error DuplicateTable
  | None => Ok (<[name := Ratings []]> d)
  end.

(** CREATE TABLE name (userid INTEGER, extra1 CHAR, movieid INTEGER,
    extra2 CHAR, rating FLOAT, extra3 CHAR, timestamp BIGINT), the table
    loadratings fills from the file.  The four auxiliary columns are dropped
    again before loadratings commits and are not represented. *)
Definition create_staging_table (name : string) (d : db) : result db :=
  match d !! name with
  | Some _ => Error DuplicateTable
  | None => Ok (<[name := Ratings []]> d)
  end.

(** DROP TABLE IF EXISTS name *)
Definition drop_table_if_exists (name : string) (d : db) : result db :=
  Ok (delete name d).

(** INSERT INTO name (userid, movieid, rating) VALUES (u, m, r) *)
Definition insert_values (name : string) (r : row) (d : db) : result db :=
  match d !! name with
  | None => Error UndefinedTable
  | Some (Metadata _) => Error UndefinedColumn
  | Some (Ratings rows) =>
      let '(userid, movieid, rating) := r in
      match literal rating with
      | Error e => Error e
      | Ok rating =>
          if int4 userid && int4 movieid
          then Ok (<[name := Ratings (rows ++ [(userid, movieid, rating)])]> d)
          else Error NumericValueOutOfRange
      end
  end.

(** SELECT userid, movieid, rating FROM source WHERE cond, appended to
    target by INSERT INTO target (userid, movieid, rating). *)
Definition insert_select (target source : string) (cond : list row → list row)
    (d : db) : result db :=
  match d !! target with
  | None => Error UndefinedTable
  | Some (Metadata _) => Error UndefinedColumn
  | Some (Ratings old) =>
      match d !! source with
      | None => Error UndefinedTable
      | Some (Metadata _) => Error UndefinedColumn
      | Some (Ratings rows) => Ok (<[target := Ratings (old ++ cond rows)]> d)
      end
  end.

(** WHERE rating >= lo AND rating <= hi, or with rating > lo. *)
Definition where_range (lo_closed : bool) (lo hi : float) (rows : list row)
    : list row :=
  List.filter (λ r, (if lo_closed then float8_ge (rating_of r) lo
                     else float8_gt (rating_of r) lo)
                    && float8_le (rating_of r) hi) rows.

Definition insert_select_range (target source : string) (lo_closed : bool)
    (lo hi : float) (d : db) : result db :=
  match literal lo, literal hi with
  | Ok lo, Ok hi => insert_select target source (where_range lo_closed lo hi) d
  | Error e, _ | _, Error e => Error e
  end.

(** ROW_NUMBER() OVER() AS rnum: 1, 2, 3, ... in the order of the scan. *)
Definition row_number (rows : list row) : list (Z * row) :=
  zip (seqZ 1 (Z.of_nat (length rows))) rows.

(** FROM (... rnum ...) AS temp WHERE (rnum-1) % n = i.  The operator %
    of SQL takes the sign of the dividend. *)
Definition where_rnum (n i : Z) (rows : list row) : list row :=
  map snd (List.filter (λ t, Z.rem (fst t - 1) n =? i) (row_number rows)).

Definition insert_select_rrobin (target source : string) (n i : Z) (d : db)
    : result db :=
  if n =? 0 then Error ZeroDivisionError
  else insert_select target source (where_rnum n i) d.

(** The number of rows of a table (SELECT COUNT FROM name). *)
Definition count_rows (name : string) (d : db) : result Z :=
  match d !! name with
  | None => Error UndefinedTable
  | Some (Ratings rows) => Ok (Z.of_nat (length rows))
  | Some (Metadata vals) => Ok (Z.of_nat (length vals))
  end.

Definition METADATA : string := "roundrobin_metadata".

(** CREATE TABLE roundrobin_metadata(next_use_partition int) *)
Definition create_metadata (d : db) : result db :=
  match d !! METADATA with
  | Some _ => Error DuplicateTable
  | None => Ok (<[METADATA := Metadata []]> d)
  end.

(** INSERT INTO roundrobin_metadata (next_use_partition) VALUES (v) *)
Definition insert_metadata (v : Z) (d : db) : result db :=
  match d !! METADATA with
  | None => Error UndefinedTable
  | Some (Ratings _) => Error UndefinedColumn
  | Some (Metadata vals) =>
      if int4 v then Ok (<[METADATA := Metadata (vals ++ [v])]> d)
      else Error NumericValueOutOfRange
  end.

(** SELECT next_use_partition FROM roundrobin_metadata FOR UPDATE, then
    fetchone()[0]. *)
Definition select_next_use (d : db) : result Z :=
  match d !! METADATA with
  | None => Error UndefinedTable
  | Some (Ratings _) => Error UndefinedColumn
  | Some (Metadata []) => Error TypeError
  | Some (Metadata (v :: _)) => Ok v
  end.

(** UPDATE roundrobin_metadata SET next_use_partition=next_use_partition+1:
    every row is incremented; the column is a 32-bit int. *)
Definition update_next_use (d : db) : result db :=
  match d !! METADATA with
  | None => Error UndefinedTable
  | Some (Ratings _) => Error UndefinedColumn
  | Some (Metadata vals) =>
      if forallb (λ v, int4 (v + 1)) vals
      then Ok (<[METADATA := Metadata (map (λ v, v + 1) vals)]> d)
      else Error NumericValueOutOfRange
  end.

(** The LIKE operator: % matches any sequence of characters, _ any single
    character, every other character itself. *)
Fixpoint like (pattern s : list ascii) : bool :=
  match pattern with
  | [] => match s with [] => true | _ => false end
  | c :: pattern' =>
      if Ascii.eqb c "%" then
        (fix any_suffix (s : list ascii) : bool :=
           like pattern' s
           || match s with [] => false | _ :: s' => any_suffix s' end) s
      else
        match s with
        | [] => false
        | a :: s' => (Ascii.eqb c "_" || Ascii.eqb c a) && like pattern' s'
        end
  end.

Definition relname_like (pattern name : string) : bool :=
  like (list_ascii_of_string pattern) (list_ascii_of_string name).

(** SELECT COUNT FROM pg_stat_user_tables WHERE relname LIKE pattern *)
Definition count_tables_like (pattern : string) (d : db) : result Z :=
  Ok (Z.of_nat (length (List.filter (relname_like pattern) (elements (dom d))))).

(** copy_from(file, name, sep=':') into the table created by loadratings:
    every line gives one row, of which userid, movieid and rating are kept;
    a value outside the range of its column raises. *)
Definition line_ok (l : line) : bool :=
  let '(userid, movieid, _, timestamp) := l in
  int4 userid && int4 movieid && int8 timestamp.

Definition copy_from (lines : list line) (name : string) (d : db) : result db :=
  match d !! name with
  | None => Error UndefinedTable
  | Some (Metadata _) => Error UndefinedColumn
  | Some (Ratings rows) =>
      if forallb line_ok lines
      then Ok (<[name := Ratings (rows ++ map fst lines)]> d)
      else Error NumericValueOutOfRange
  end.

(** ALTER TABLE name DROP COLUMN extra1, ..., DROP COLUMN timestamp *)
Definition alter_drop_columns (name : string) (d : db) : result db :=
  match d !! name with
  | None => Error UndefinedTable
  | Some (Metadata _) => Error UndefinedColumn
  | Some (Ratings _) => Ok d
  end.

End Storage.

Import Storage.

(** ** The connection: one transaction at a time *)

(** psycopg2 opens a transaction at the first statement; [pending] is the
    store as the open transaction sees it, [committed] the durable one.
    [commit] makes the pending store durable.  An exception leaves the
    function at once: what was pending and not committed is never made
    durable. *)
Record connection : Type := Connection {
  committed : gmap string table;
  pending : gmap string table
}.

Inductive outcome (A : Type) : Type :=
  | Returned (a : A) (c : connection)
  | Raised (e : exn) (c : connection).
Arguments Returned {A} a c.
Arguments Raised {A} e c.

Definition Tx (A : Type) : Type := connection → outcome A.

Definition tx_ret {A} (a : A) : Tx A := λ c, Returned a c.
Definition tx_bind {A B} (f : A → Tx B) (m : Tx A) : Tx B :=
  λ c, match m c with
       | Returned a c' => f a c'
       | Raised e c' => Raised e c'
       end.

#[global] Instance Tx_ret : MRet Tx := @tx_ret.
#[global] Instance Tx_bind : MBind Tx := @tx_bind.

(** A Python expression that may raise. *)
Definition lift {A} (r : result A) : Tx A :=
  λ c, match r with Ok a => Returned a c | Error e => Raised e c end.

(** cur.execute of a statement that changes the store. *)
Definition execute (stmt : gmap string table → result (gmap string table)) : Tx unit :=
  λ c, match stmt (pending c) with
       | Ok d => Returned tt {| committed := committed c; pending := d |}
       | Error e => Raised e c
       end.

(** cur.execute of a query, then fetchone()[0]. *)
Definition fetch {A} (query : gmap string table → result A) : Tx A :=
  λ c, lift (query (pending c)) c.

(** con.commit() *)
Definition commit : Tx unit :=
  λ c, Returned tt {| committed := pending c; pending := pending c |}.

(** for x in l: body(x) *)
Fixpoint for_each {A} (l : list A) (body : A → Tx unit) : Tx unit :=
  match l with
  | [] => mret tt
  | x :: l' => body x;; for_each l' body
  end.

(** range(n) *)
Definition range (n : Z) : list Z := seqZ 0 n.

(** str(i) for an int: its decimal numeral. *)
Definition str (i : Z) : string := pretty i.

Definition conn_of {A} (o : outcome A) : connection :=
  match o with Returned _ c | Raised _ c => c end.

(** ** The file system seen by loadratings *)

Inductive fsnode : Type :=
  | Directory
  | File (lines : list line).

Definition filesystem : Type := gmap string fsnode.

(** os.path.exists(path) *)
Definition path_exists (fs : filesystem) (path : string) : bool :=
  bool_decide (is_Some (fs !! path)).

(** open(path): the lines of a regular file. *)
Definition open (fs : filesystem) (path : string) : result (list line) :=
  match fs !! path with
  | Some (File lines) => Ok lines
  | Some Directory => Error IsADirectoryError
  | None => Error FileNotFoundError
  end.

(** ** The functions of Interface.py *)

Definition RANGE_TABLE_PREFIX : string := "range_part".
Definition RROBIN_TABLE_PREFIX : string := "rrobin_part".

Definition loadratings (fs : filesystem) (ratingstablename ratingsfilepath : string)
    : Tx unit :=
  if negb (path_exists fs ratingsfilepath) then mret tt
  else
    execute (drop_table_if_exists ratingstablename);;
    execute (create_staging_table ratingstablename);;
    lines ← lift (open fs ratingsfilepath);
    execute (copy_from lines ratingstablename);;
    execute (alter_drop_columns ratingstablename);;
    commit.

Definition rangepartition (ratingstablename : string) (numberofpartitions : Z)
    : Tx unit :=
  if numberofpartitions <=? 0 then mret tt
  else
    n ← lift (of_int numberofpartitions);
    delta ← lift (truediv five n);
    for_each (range numberofpartitions) (λ i,
      fi ← lift (of_int i);
      let minRange := mul fi delta in
      let maxRange := add minRange delta in
      let table_name := RANGE_TABLE_PREFIX +:+ str i in
      execute (create_table table_name);;
      if i =? 0
      then execute (insert_select_range table_name ratingstablename true minRange maxRange)
      else execute (insert_select_range table_name ratingstablename false minRange maxRange));;
    commit.

Definition roundrobinpartition (ratingstablename : string) (numberofpartitions : Z)
    : Tx unit :=
  if numberofpartitions <=? 0 then mret tt
  else
    for_each (range numberofpartitions) (λ i,
      let table_name := RROBIN_TABLE_PREFIX +:+ str i in
      execute (create_table table_name);;
      execute (insert_select_rrobin table_name ratingstablename numberofpartitions i));;
    total_rows ← fetch (count_rows ratingstablename);
    execute create_metadata;;
    let next_use := total_rows `mod` numberofpartitions in
    execute (insert_metadata next_use);;
    commit.

Definition count_partitions (prefix : string) : Tx Z :=
  count ← fetch (count_tables_like (prefix +:+ "%"));
  commit;;
  mret count.

(** The index arithmetic of rangeinsert (lines 214 to 218). *)
Definition range_index (numberofpartitions : Z) (rating : float) : result Z :=
  match of_int numberofpartitions with
  | Error e => Error e
  | Ok n =>
      match truediv five n with
      | Error e => Error e
      | Ok delta =>
          match truediv rating delta with
          | Error e => Error e
          | Ok q =>
              match to_int q with
              | Error e => Error e
              | Ok index =>
                  match rem rating delta with
                  | Error e => Error e
                  | Ok m =>
                      if eqb m zero && negb (index =? 0)
                      then Ok (index - 1) else Ok index
                  end
              end
          end
      end
  end.

Definition rangeinsert (ratingstablename : string) (userid itemid : Z)
    (rating : float) : Tx unit :=
  if ltb rating zero || ltb five rating then mret tt
  else
    execute (insert_values ratingstablename (userid, itemid, rating));;
    numberofpartitions ← count_partitions RANGE_TABLE_PREFIX;
    if numberofpartitions <=? 0 then mret tt
    else
      index ← lift (range_index numberofpartitions rating);
      let table_name := RANGE_TABLE_PREFIX +:+ str index in
      execute (insert_values table_name (userid, itemid, rating));;
      commit.

Definition roundrobininsert (ratingstablename : string) (userid itemid : Z)
    (rating : float) : Tx unit :=
  if ltb rating zero || ltb five rating then mret tt
  else
    execute (insert_values ratingstablename (userid, itemid, rating));;
    numberofpartitions ← count_partitions RROBIN_TABLE_PREFIX;
    if numberofpartitions <=? 0 then mret tt
    else
      next_use ← fetch select_next_use;
      execute update_next_use;;
      let index := next_use `mod` numberofpartitions in
      let table_name := RROBIN_TABLE_PREFIX +:+ str index in
      execute (insert_values table_name (userid, itemid, rating));;
      commit.


(** ** Ratings and records *)

(** A rating in [0, 5]. *)
Definition valid_rating (rating : float) : Prop :=
  leb zero rating = true ∧ leb rating five = true.

(** A rating below 0 or above 5, as the guard of the inserts compares them.
    A NaN is neither, and is not in [0, 5] either. *)
Definition invalid_rating (rating : float) : Prop :=
  ltb rating zero = true ∨ ltb five rating = true.

(** The catalog of a family, as count_partitions reads it from a store. *)
Definition catalog (prefix : string) (d : gmap string table) : Z :=
  Z.of_nat (length (List.filter (relname_like (prefix +:+ "%")) (elements (dom d)))).

(** A connection with no open transaction. *)
Definition at_rest (d : gmap string table) : connection :=
  {| committed := d; pending := d |}.

(** The store with one more row at the end of a ratings-shaped table. *)
Definition with_row (name : string) (r : row) (d : gmap string table)
    : gmap string table :=
  match d !! name with
  | Some (Ratings rows) => <[name := Ratings (rows ++ [r])]> d
  | _ => d
  end.


(** ** Sample data *)

Definition one : float := Eval vm_compute in binary_normalize prec emax 1 0 false.
Definition three : float := Eval vm_compute in binary_normalize prec emax 3 0 false.
Definition six : float := Eval vm_compute in binary_normalize prec emax 6 0 false.
(** 2.5 *)
Definition two_and_half : float := S754_finite false 5629499534213120 (-51).

(** Seven ratings, in insertion order. *)
Definition seven_rows : list row :=
  [(1, 10, zero); (2, 10, one); (3, 10, two_and_half); (4, 10, five);
   (5, 11, three); (6, 11, one); (7, 11, five)].

(** A database that holds the ratings table and nothing else. *)
Definition ratings_only : gmap string table := {[ "ratings" := Ratings seven_rows ]}.

(** A ratings table with a single five-star rating. *)
Definition five_star_only : gmap string table :=
  {[ "ratings" := Ratings [(1, 10, five)] ]}.

(** The rows of a ratings-shaped table; none for any other name. *)
Definition rows_of (d : gmap string table) (name : string) : list row :=
  match d !! name with
  | Some (Ratings rows) => rows
  | _ => []
  end.

(** The partitions 0 .. n-1 of a family, in index order. *)
Definition partitions (prefix : string) (n : Z) (d : gmap string table)
    : list (list row) :=
  map (λ i, rows_of d (prefix +:+ str i)) (range n).

(** The name of a partition table. *)
Definition range_part (i : Z) : string := RANGE_TABLE_PREFIX +:+ str i.
Definition rrobin_part (i : Z) : string := RROBIN_TABLE_PREFIX +:+ str i.

(** Rows numbered from [s] on. *)
Definition numbered (s : Z) (rows : list row) : list (Z * row) :=
  zip (seqZ s (Z.of_nat (length rows))) rows.

(** The store after the loop of roundrobinpartition has run through the
    indices [idxs]. *)
Definition rr_tables (n : Z) (rows : list row) (d : gmap string table) (idxs : list Z)
    : gmap string table :=
  foldl (λ d i, <[rrobin_part i := Ratings (where_rnum n i rows)]> d) d idxs.

(** ** Round-robin inserts in sequence *)

(** A record the storage layer accepts: 32-bit identifiers and a rating
    in [0, 5]. *)
Definition valid_record (r : row) : Prop :=
  int4 r.1.1 = true ∧ int4 r.1.2 = true ∧ valid_rating r.2.

(** The caller inserts the records one after the other. *)
Definition roundrobininsert_all (ratingstablename : string) (records : list row)
    : Tx unit :=
  for_each records (λ r, roundrobininsert ratingstablename r.1.1 r.1.2 r.2).

(** The round-robin family is in place: the catalog counts [n] partitions,
    the ratings table and the partitions 0 .. n-1 exist, and the cursor table
    holds the single value [cur]. *)
Definition rr_ready (n : Z) (name : string) (cur : Z) (d : gmap string table) : Prop :=
  catalog RROBIN_TABLE_PREFIX d = n
  ∧ (∃ rows, d !! name = Some (Ratings rows))
  ∧ (∀ i, 0 ≤ i < n → ∃ rows, d !! rrobin_part i = Some (Ratings rows))
  ∧ d !! METADATA = Some (Metadata [cur]).

(** The store after one round-robin insert at cursor value [cur]: the record
    is in the ratings table and in partition [cur mod n], and the cursor is
    [cur + 1]. *)
Definition rr_inserted (n : Z) (name : string) (r : row) (cur : Z)
    (d : gmap string table) : gmap string table :=
  with_row (rrobin_part (cur `mod` n)) r
    (<[METADATA := Metadata [cur + 1]]> (with_row name r d)).

(** The store the round-robin bulk build leaves for seven ratings and three
    partitions. *)
Definition three_rrobin : gmap string table :=
  committed (conn_of (roundrobinpartition "ratings" 3 (at_rest ratings_only))).

(** Two round-robin partitions, the cursor at the largest 32-bit value. *)
Definition cursor_at_max : gmap string table :=
  <["ratings" := Ratings []]>
    (<["rrobin_part0" := Ratings []]>
       (<["rrobin_part1" := Ratings []]>
          {[ METADATA := Metadata [2147483647] ]})).

(** ** What an operation leaves committed *)

(** A computation that commits nothing: whatever it returns or raises, the
    committed store is the one it started from. *)
Definition no_commit {A} (m : Tx A) : Prop :=
  ∀ c, committed (conn_of (m c)) = committed c.

(** A computation that commits everything it wrote when it returns, and
    nothing when it raises. *)
Definition all_or_nothing {A} (m : Tx A) : Prop :=
  ∀ c, match m c with
       | Returned _ c' => c' = at_rest (pending c')
       | Raised _ c' => committed c' = committed c
       end.

(** Round-robin partitions 0 and 1 without the cursor table. *)
Definition cursor_missing : gmap string table :=
  <["ratings" := Ratings []]>
    (<["rrobin_part0" := Ratings []]> {[ "rrobin_part1" := Ratings [] ]}).

(** ** Further sample data *)

(** A ratings file of three lines. *)
Definition three_lines : list line :=
  [(1, 122, five, 838985046); (1, 185, two_and_half, 838983525);
   (2, 231, zero, 838983392)].

(** A file system with that file and a directory. *)
Definition sample_fs : filesystem :=
  <["test_data.dat" := File three_lines]> {[ "data" := Directory ]}.

(** A store with the first partition table of either family. *)
Definition both_families : gmap string table :=
  <["range_part0" := Ratings []]> cursor_missing.

(** The round-robin family holds exactly the round-robin distribution of the
    rows [all] of the ratings table: the catalog counts [n] partitions,
    partition i holds the rows of [all] whose position falls on i, the
    ratings table is none of the partitions, and the cursor [cur] points,
    modulo [n], at the partition of the next position. *)
Definition rr_distributed (n : Z) (name : string) (all : list row) (cur : Z)
    (d : gmap string table) : Prop :=
  catalog RROBIN_TABLE_PREFIX d = n
  ∧ d !! name = Some (Ratings all)
  ∧ (∀ i, 0 ≤ i < n → d !! rrobin_part i = Some (Ratings (where_rnum n i all)))
  ∧ d !! METADATA = Some (Metadata [cur])
  ∧ cur `mod` n = Z.of_nat (length all) `mod` n
  ∧ (∀ i, name ≠ rrobin_part i).

(** ** The order of float8 values, by keys *)

(** A key whose lexicographic order is the order of [float8_cmp]: the class
    (-inf, negative, zero, positive, +inf, NaN), then exponent and mantissa,
    negated for the negative numbers. *)
Definition float8_key (x : float) : Z * Z * Z :=
  match x with
  | S754_infinity true => (-2, 0, 0)
  | S754_finite true m e => (-1, - e, Zneg m)
  | S754_zero _ => (0, 0, 0)
  | S754_finite false m e => (1, e, Zpos m)
  | S754_infinity false => (2, 0, 0)
  | S754_nan => (3, 0, 0)
  end.

Definition key_le (k1 k2 : Z * Z * Z) : Prop :=
  k1.1.1 < k2.1.1
  ∨ (k1.1.1 = k2.1.1
     ∧ (k1.1.2 < k2.1.2 ∨ (k1.1.2 = k2.1.2 ∧ k1.2 ≤ k2.2))).

(** ** The buckets of the range bulk build *)

(** The bounds (minRange, maxRange) of bucket [i] as rangepartition computes
    them, when the index converts to a float and both bounds can be written
    into the SQL text. *)
Definition bucket_bounds (delta : float) (i : Z) : option (float * float) :=
  match of_int i with
  | Error _ => None
  | Ok fi =>
      let minRange := mul fi delta in
      let maxRange := add minRange delta in
      if is_finite minRange && is_finite maxRange
      then Some (minRange, maxRange) else None
  end.

(** The rows the INSERT of iteration [i] selects. *)
Definition range_bucket (delta : float) (i : Z) (rows : list row) : list row :=
  match bucket_bounds delta i with
  | Some (lo, hi) => where_range (i =? 0) lo hi rows
  | None => []
  end.

(** The store after the loop of rangepartition has run through the indices
    [idxs]. *)
Definition range_tables (delta : float) (rows : list row) (d : gmap string table)
    (idxs : list Z) : gmap string table :=
  foldl (λ d i, <[range_part i := Ratings (range_bucket delta i rows)]> d) d idxs.

(** The bounds computed for [n] partitions line up: every bucket has its
    bounds in order, the first lower bound is at most 0, each upper bound
    and the next lower bound are the same float8 value, and the last upper
    bound is at least 5.0. *)
Definition bounds_line_up (n : Z) : bool :=
  match of_int n with
  | Error _ => false
  | Ok fn =>
      match truediv five fn with
      | Error _ => false
      | Ok delta =>
          forallb (λ i,
            match bucket_bounds delta i with
            | None => false
            | Some (lo, hi) =>
                float8_le lo hi
                && (if i =? 0 then float8_le lo zero else true)
                && (if i =? n - 1 then float8_le five hi
                    else match bucket_bounds delta (i + 1) with
                         | Some (lo', _) => float8_le hi lo' && float8_le lo' hi
                         | None => false
                         end)
            end) (range n)
      end
  end.

(** A store whose only table besides the ratings table has a name that the
    range pattern matches through its wildcard. *)
Definition range_lookalike : gmap string table :=
  <["rangeXparts" := Ratings []]> ratings_only.

(** The store the range bulk build leaves for seven ratings and five
    partitions. *)
Definition five_ranges : gmap string table :=
  committed (conn_of (rangepartition "ratings" 5 (at_rest ratings_only))).
(** * Properties *)

(** ** The arithmetic and the pattern matching on examples *)

Example five_is_5 : of_int 5 = Ok five.
Proof. reflexivity. Qed.

Example two_and_half_is_half_of_five : truediv five (S754_finite false 4503599627370496 (-51)) = Ok two_and_half.
Proof. reflexivity. Qed.

(** 5.0 % 2.5 is zero and 5.0 % 3.0 is 2.0. *)
Example rem_five_two_and_half : rem five two_and_half = Ok zero.
Proof. reflexivity. Qed.

Example rem_five_three : rem five three = Ok (S754_finite false 4503599627370496 (-51)).
Proof. reflexivity. Qed.

Example to_int_two_and_half : to_int two_and_half = Ok 2.
Proof. reflexivity. Qed.

(** The underscore of the prefix is a wildcard of LIKE. *)
Example like_range_part :
  relname_like "range_part%" "range_part12" = true
  ∧ relname_like "range_part%" "rangeXpart" = true
  ∧ relname_like "range_part%" "ratings" = false
  ∧ relname_like "rrobin_part%" "roundrobin_metadata" = false.
Proof. repeat split; reflexivity. Qed.


(** ** Comparisons of floats *)

Lemma SFcompare_antisym (x y : float) :
  SFcompare y x = option_map CompOpp (SFcompare x y).
Proof.
  destruct x as [[]|[]| |[] mx ex], y as [[]|[]| |[] my ey]; try reflexivity;
    unfold SFcompare; rewrite (Z.compare_antisym ex ey);
    destruct (ex ?= ey); simpl; try reflexivity;
    rewrite (Pos.compare_cont_antisym mx my Eq); simpl;
    try reflexivity; by rewrite CompOpp_involutive.
Qed.

Lemma leb_not_ltb (x y : float) : leb x y = true → ltb y x = false.
Proof.
  unfold leb, ltb, SFleb, SFltb. rewrite (SFcompare_antisym x y).
  by destruct (SFcompare x y) as [[]|].
Qed.

Lemma valid_rating_guard rating :
  valid_rating rating → ltb rating zero || ltb five rating = false.
Proof.
  intros [H0 H5]. by rewrite (leb_not_ltb _ _ H0), (leb_not_ltb _ _ H5).
Qed.

Lemma valid_rating_literal rating : valid_rating rating → literal rating = Ok rating.
Proof.
  intros [H0 H5]. unfold literal.
  destruct rating as [s|s| |s m e]; try reflexivity.
  - destruct s; [exact (False_rect _ (diff_false_true H0))
                |exact (False_rect _ (diff_false_true H5))].
  - exact (False_rect _ (diff_false_true H0)).
Qed.

(** ** Statements that succeed *)

Lemma insert_values_ok name u i rating rows (d : gmap string table) :
  d !! name = Some (Ratings rows) → valid_rating rating →
  int4 u = true → int4 i = true →
  insert_values name (u, i, rating) d
  = Ok (<[name := Ratings (rows ++ [(u, i, rating)])]> d).
Proof.
  intros Hn Hr Hu Hi. unfold insert_values. rewrite Hn.
  rewrite (valid_rating_literal _ Hr), Hu, Hi. reflexivity.
Qed.

Lemma catalog_insert_existing prefix name t (d : gmap string table) :
  is_Some (d !! name) → catalog prefix (<[name := t]> d) = catalog prefix d.
Proof. intros H. unfold catalog. by rewrite dom_insert_lookup_L. Qed.

Lemma count_partitions_eq prefix c :
  count_partitions prefix c
  = Returned (catalog prefix (pending c)) (at_rest (pending c)).
Proof. reflexivity. Qed.

(** ** Early returns *)

(** The guard.  An incremental insert whose rating is below 0 or above 5
    returns at once without raising: the connection, and with it the ratings
    table, every partition and the round-robin cursor, is left as it was. *)
Lemma invalid_rating_is_noop name userid itemid rating c :
  invalid_rating rating →
  rangeinsert name userid itemid rating c = Returned tt c
  ∧ roundrobininsert name userid itemid rating c = Returned tt c.
Proof.
  intros H. unfold rangeinsert, roundrobininsert.
  assert (ltb rating zero || ltb five rating = true) as ->; [|done].
  destruct H as [-> | ->]; [done | apply orb_true_r].
Qed.

Lemma invalid_rating_is_noop_witness :
  invalid_rating six
  ∧ rangeinsert "ratings" 8 12 six (at_rest ratings_only)
    = Returned tt (at_rest ratings_only)
  ∧ roundrobininsert "ratings" 8 12 six (at_rest ratings_only)
    = Returned tt (at_rest ratings_only).
Proof.
  assert (invalid_rating six) as H by (right; reflexivity).
  split; [exact H | exact (invalid_rating_is_noop "ratings" 8 12 six _ H)].
Defined.

(** C9, at a NaN rating.  A NaN is not in [0, 5], yet it is neither below 0
    nor above 5: the guard does not fire, the call goes on to the INSERT
    into the ratings table, and the INSERT raises.  The call is not the
    silent return the comment on the guard announces for a rating that is
    not in the valid range; nothing is written. *)
Theorem nan_rating_passes_guard :
  ¬ valid_rating S754_nan
  ∧ ltb S754_nan zero || ltb five S754_nan = false
  ∧ rangeinsert "ratings" 8 12 S754_nan (at_rest ratings_only)
    = Raised UndefinedColumn (at_rest ratings_only)
  ∧ roundrobininsert "ratings" 8 12 S754_nan (at_rest ratings_only)
    = Raised UndefinedColumn (at_rest ratings_only).
Proof.
  split; [intros [H _]; discriminate H|]. repeat split; reflexivity.
Qed.

(** C10. When the ratings file path does not exist, loadratings returns at
    once and performs no storage operation: a table that already has the
    given name is neither dropped nor recreated nor changed. *)
Theorem loadratings_missing_file fs name path c :
  path_exists fs path = false →
  loadratings fs name path c = Returned tt c.
Proof. intros H. unfold loadratings. by rewrite H. Qed.

Lemma loadratings_missing_file_witness :
  path_exists ∅ "test_data.dat" = false
  ∧ loadratings ∅ "ratings" "test_data.dat" (at_rest ratings_only)
    = Returned tt (at_rest ratings_only).
Proof.
  split; [reflexivity | apply loadratings_missing_file; reflexivity].
Defined.

(** ** Inserts when the catalog is empty *)

(** C8. An incremental insert of a well-formed record (rating in [0, 5],
    32-bit identifiers) into an existing ratings table, while the catalog
    reports no partition of the family: the call returns without raising,
    the record is appended to the ratings table and committed, and no other
    table changes. *)
Theorem insert_without_partitions name userid itemid rating rows c :
  valid_rating rating → int4 userid = true → int4 itemid = true →
  pending c !! name = Some (Ratings rows) →
  (catalog RANGE_TABLE_PREFIX (pending c) = 0 →
   rangeinsert name userid itemid rating c
   = Returned tt (at_rest (<[name := Ratings (rows ++ [(userid, itemid, rating)])]> (pending c))))
  ∧ (catalog RROBIN_TABLE_PREFIX (pending c) = 0 →
     roundrobininsert name userid itemid rating c
     = Returned tt (at_rest (<[name := Ratings (rows ++ [(userid, itemid, rating)])]> (pending c)))).
Proof.
  intros Hr Hu Hi Hn.
  pose proof (insert_values_ok name userid itemid rating rows _ Hn Hr Hu Hi) as Hins.
  split; intros Hcat; unfold rangeinsert, roundrobininsert;
    rewrite (valid_rating_guard _ Hr);
    unfold mbind, Tx_bind, tx_bind, execute; rewrite Hins;
    rewrite count_partitions_eq; cbn [pending];
    rewrite catalog_insert_existing, Hcat by (by rewrite Hn); reflexivity.
Qed.

Lemma insert_without_partitions_witness :
  rangeinsert "ratings" 8 12 three (at_rest ratings_only)
  = Returned tt (at_rest {[ "ratings" := Ratings (seven_rows ++ [(8, 12, three)]) ]})
  ∧ roundrobininsert "ratings" 8 12 three (at_rest ratings_only)
    = Returned tt (at_rest {[ "ratings" := Ratings (seven_rows ++ [(8, 12, three)]) ]}).
Proof.
  assert (valid_rating three) as Hr by (split; reflexivity).
  destruct (insert_without_partitions "ratings" 8 12 three seven_rows
              (at_rest ratings_only) Hr eq_refl eq_refl eq_refl) as [H1 H2].
  split.
  - rewrite (H1 eq_refl). reflexivity.
  - rewrite (H2 eq_refl). reflexivity.
Defined.

(** ** Range partitioning at the bucket boundaries

    [delta = 5.0 / 3] is rounded up to 1.6666666666666667, so that
    [5.0 / delta] is exactly 3.0 while [5.0 % delta] is not zero. *)

Example delta_of_three :
  truediv five three = Ok (S754_finite false 7505999378950827 (-52)).
Proof. reflexivity. Qed.

Example five_div_delta_of_three :
  truediv five (S754_finite false 7505999378950827 (-52)) = Ok three.
Proof. reflexivity. Qed.

Example five_mod_delta_of_three :
  rem five (S754_finite false 7505999378950827 (-52))
  = Ok (S754_finite false 7505999378950826 (-52)).
Proof. reflexivity. Qed.

(** The index the incremental insert computes for rating 5.0, for 1 to 12
    partitions: it is N - 1 only where 5.0 / N is exact. *)
Example range_index_of_five :
  map (λ n, range_index n five) (seqZ 1 12)
  = [Ok 0; Ok 1; Ok 3; Ok 3; Ok 4; Ok 6; Ok 7; Ok 7; Ok 9; Ok 9; Ok 11; Ok 12].
Proof. vm_compute. reflexivity. Qed.

(** Whenever the index arithmetic gives an index for rating 0, it is 0. *)
Lemma range_index_zero n index : range_index n zero = Ok index → index = 0.
Proof.
  unfold range_index. destruct (of_int n) as [fn|]; [|discriminate].
  unfold truediv at 1. destruct (is_zero fn); [discriminate|].
  generalize (SFdiv prec emax five fn). intros delta.
  unfold truediv, rem. destruct (is_zero delta) eqn:Hz; [discriminate|].
  destruct delta as [s|s| |s m e]; try discriminate; cbn; by intros [= <-].
Qed.

(** C4, at three partitions.  A rating of 0 gets index 0, but a rating of
    exactly 5.0 gets index 3, not 2: the boundary correction does not fire,
    and the insert into range_part3, which does not exist, raises after the
    ratings table has gained the record. *)
Theorem rating_five_routed_past_last_partition :
  range_index 3 zero = Ok 0
  ∧ range_index 3 five = Ok 3
  ∧ ∃ d, rangepartition "ratings" 3 (at_rest five_star_only) = Returned tt (at_rest d)
       ∧ rangeinsert "ratings" 2 10 five (at_rest d)
         = Raised UndefinedTable
             (at_rest (<["ratings" := Ratings [(1, 10, five); (2, 10, five)]]> d)).
Proof.
  split; [reflexivity|]. split; [reflexivity|].
  eexists. split; [vm_compute; reflexivity|]. vm_compute. reflexivity.
Qed.

(** C1, at three partitions and rating 5.0.  The bulk build places the
    record in partition 2, the last one; the index arithmetic of the
    incremental insert gives 3. *)
Theorem range_insert_disagrees_with_build :
  (∃ d, rangepartition "ratings" 3 (at_rest five_star_only) = Returned tt (at_rest d)
      ∧ partitions RANGE_TABLE_PREFIX 3 d = [[]; []; [(1, 10, five)]])
  ∧ range_index 3 five = Ok 3.
Proof.
  split; [|reflexivity].
  eexists. split; [vm_compute; reflexivity|]. vm_compute. reflexivity.
Qed.

(** C3, at eleven partitions.  The upper bound of the last bucket,
    10 * delta + delta, is rounded below 5.0: the bulk build leaves a record
    with rating 5.0 out of every partition. *)
Theorem range_build_loses_rating_five :
  ∃ d, rangepartition "ratings" 11 (at_rest five_star_only) = Returned tt (at_rest d)
     ∧ d !! "ratings" = Some (Ratings [(1, 10, five)])
     ∧ concat (partitions RANGE_TABLE_PREFIX 11 d) = [].
Proof.
  eexists. split; [vm_compute; reflexivity|]. split; vm_compute; reflexivity.
Qed.

(** ** Table names *)

Lemma rrobin_part_inj i j : rrobin_part i = rrobin_part j → i = j.
Proof.
  unfold rrobin_part, str. intros H.
  by apply (inj (String.app RROBIN_TABLE_PREFIX)), (inj pretty) in H.
Qed.

Lemma range_part_inj i j : range_part i = range_part j → i = j.
Proof.
  unfold range_part, str. intros H.
  by apply (inj (String.app RANGE_TABLE_PREFIX)), (inj pretty) in H.
Qed.

Lemma rrobin_part_not_metadata i : rrobin_part i ≠ METADATA.
Proof. unfold rrobin_part, METADATA. simpl. discriminate. Qed.

(** ** Row numbers *)

Lemma numbered_cons s x rows : numbered s (x :: rows) = (s, x) :: numbered (s + 1) rows.
Proof.
  unfold numbered. cbn [length]. rewrite seqZ_cons by lia.
  replace (Z.pred (Z.of_nat (S (length rows)))) with (Z.of_nat (length rows)) by lia.
  reflexivity.
Qed.

(** The rows whose number, counted from [s], falls on index [i]. *)
Lemma stride_cons n i s x rows :
  map snd (List.filter (λ t, Z.rem (fst t - 1) n =? i) (numbered s (x :: rows)))
  = if Z.rem (s - 1) n =? i
    then x :: map snd (List.filter (λ t, Z.rem (fst t - 1) n =? i) (numbered (s + 1) rows))
    else map snd (List.filter (λ t, Z.rem (fst t - 1) n =? i) (numbered (s + 1) rows)).
Proof.
  rewrite numbered_cons. cbn [List.filter fst]. by destruct (Z.rem (s - 1) n =? i).
Qed.

Lemma mod_turn_hit a n i :
  0 < n → a `mod` n = i → (i - a) `mod` n = 0 ∧ (i - (a + 1)) `mod` n = n - 1.
Proof.
  intros Hn Hi. pose proof (Z.div_mod a n).
  split; symmetry;
    [apply (Z.mod_unique _ _ (- (a `div` n)))
    |apply (Z.mod_unique _ _ (- (a `div` n) - 1))]; lia.
Qed.

Lemma mod_turn_miss a n i :
  0 < n → 0 ≤ i < n → a `mod` n ≠ i →
  0 < (i - a) `mod` n ∧ (i - (a + 1)) `mod` n = (i - a) `mod` n - 1.
Proof.
  intros Hn Hi Hne.
  pose proof (Z.mod_pos_bound (i - a) n Hn) as Hb.
  pose proof (Z.div_mod (i - a) n) as Hd.
  assert ((i - a) `mod` n ≠ 0) as H0.
  { intros H0. apply Hne. symmetry.
    apply (Z.mod_unique _ _ (- ((i - a) `div` n))); lia. }
  split; [lia|]. symmetry.
  apply (Z.mod_unique _ _ ((i - a) `div` n)); lia.
Qed.

Lemma stride_lookup n i s rows (k : nat) :
  0 < n → 0 ≤ i < n → 1 ≤ s →
  map snd (List.filter (λ t, Z.rem (fst t - 1) n =? i) (numbered s rows)) !! k
  = rows !! Z.to_nat ((i - (s - 1)) `mod` n + Z.of_nat k * n).
Proof.
  intros Hn Hi. revert s k. induction rows as [|x rows IH]; intros s k Hs.
  - unfold numbered. simpl. by rewrite !lookup_nil.
  - rewrite stride_cons, Z.rem_mod_nonneg by lia.
    destruct (Z.eqb_spec ((s - 1) `mod` n) i) as [E|E].
    + destruct (mod_turn_hit _ _ _ Hn E) as [E0 E1]. rewrite E0.
      destruct k as [|k]; [reflexivity|].
      cbn [lookup list_lookup]. rewrite IH by lia.
      replace (s + 1 - 1) with (s - 1 + 1) by lia. rewrite E1.
      replace (Z.to_nat (0 + Z.of_nat (S k) * n))
        with (S (Z.to_nat (n - 1 + Z.of_nat k * n))) by lia.
      reflexivity.
    + destruct (mod_turn_miss _ _ _ Hn Hi E) as [E0 E1].
      rewrite IH by lia.
      replace (s + 1 - 1) with (s - 1 + 1) by lia. rewrite E1.
      replace (Z.to_nat ((i - (s - 1)) `mod` n + Z.of_nat k * n))
        with (S (Z.to_nat ((i - (s - 1)) `mod` n - 1 + Z.of_nat k * n))) by nia.
      reflexivity.
Qed.

(** Row [k] of bucket [i] is row [i + k * n] of the table. *)
Lemma where_rnum_lookup n i rows (k : nat) :
  0 < n → 0 ≤ i < n →
  where_rnum n i rows !! k = rows !! Z.to_nat (i + Z.of_nat k * n).
Proof.
  intros Hn Hi. unfold where_rnum, row_number.
  change (zip (seqZ 1 (Z.of_nat (length rows))) rows) with (numbered 1 rows).
  rewrite stride_lookup by lia.
  replace (i - (1 - 1)) with i by lia. by rewrite Z.mod_small by lia.
Qed.

(** One index of a duplicate-free list takes the row [x]. *)
Lemma concat_one_turn (x : row) (i0 : Z) (g : Z → list row) (idxs : list Z) :
  NoDup idxs → i0 ∈ idxs →
  concat (map (λ i, if i0 =? i then x :: g i else g i) idxs) ≡ₚ x :: concat (map g idxs).
Proof.
  induction 1 as [|j idxs Hj Hnd IH]; intros Hin; [by apply elem_of_nil in Hin|].
  cbn [map concat]. destruct (Z.eqb_spec i0 j) as [->|Hne].
  - assert (map (λ i, if j =? i then x :: g i else g i) idxs = map g idxs) as ->; [|done].
    apply map_ext_in. intros i Hi.
    destruct (Z.eqb_spec j i) as [->|]; [|done].
    by apply list_elem_of_In in Hi.
  - apply elem_of_cons in Hin as [?|Hin]; [done|].
    rewrite (IH Hin). by rewrite Permutation_middle.
Qed.

Lemma stride_partition n s rows :
  0 < n → 1 ≤ s →
  concat (map (λ i, map snd (List.filter (λ t, Z.rem (fst t - 1) n =? i) (numbered s rows)))
              (range n))
  ≡ₚ rows.
Proof.
  intros Hn. revert s. induction rows as [|x rows IH]; intros s Hs.
  - unfold numbered. simpl. induction (range n) as [|? ? IHl]; [done|exact IHl].
  - erewrite map_ext; [|intros i; apply stride_cons].
    rewrite (concat_one_turn x (Z.rem (s - 1) n)
               (λ i, map snd (List.filter (λ t, Z.rem (fst t - 1) n =? i) (numbered (s + 1) rows)))).
    + f_equiv. apply IH. lia.
    + apply NoDup_seqZ.
    + apply elem_of_seqZ. rewrite Z.rem_mod_nonneg by lia.
      pose proof (Z.mod_pos_bound (s - 1) n Hn). lia.
Qed.

(** Every row of the table is in exactly one bucket of the bulk build. *)
Lemma where_rnum_partition n rows :
  0 < n → concat (map (λ i, where_rnum n i rows) (range n)) ≡ₚ rows.
Proof. intros Hn. by apply (stride_partition n 1 rows). Qed.

(** The sizes of two buckets differ by at most one. *)
Lemma where_rnum_balanced n i j rows :
  0 < n → 0 ≤ i < n → 0 ≤ j < n →
  (length (where_rnum n i rows) ≤ S (length (where_rnum n j rows)))%nat.
Proof.
  intros Hn Hi Hj.
  destruct (decide (length (where_rnum n i rows) ≤ S (length (where_rnum n j rows)))%nat)
    as [|Hgt]; [done|exfalso].
  assert (is_Some (where_rnum n i rows !! S (length (where_rnum n j rows)))) as Hs
    by (apply lookup_lt_is_Some; lia).
  rewrite where_rnum_lookup in Hs by done. apply lookup_lt_is_Some in Hs.
  assert (where_rnum n j rows !! length (where_rnum n j rows) = None) as Hnone
    by (apply lookup_ge_None; lia).
  rewrite where_rnum_lookup in Hnone by done. apply lookup_ge_None in Hnone.
  nia.
Qed.

(** ** The round-robin bulk build *)

Lemma rr_tables_lookup_other n rows idxs (d : gmap string table) name :
  (∀ i, i ∈ idxs → name ≠ rrobin_part i) →
  rr_tables n rows d idxs !! name = d !! name.
Proof.
  revert d. induction idxs as [|i idxs IH]; intros d Hne; [done|].
  unfold rr_tables in *. cbn [foldl]. rewrite IH.
  - apply lookup_insert_ne. intros E. by apply (Hne i); [left|].
  - intros j Hj. apply Hne. by right.
Qed.

Lemma rr_tables_lookup_part n rows idxs (d : gmap string table) i :
  i ∈ idxs →
  rr_tables n rows d idxs !! rrobin_part i = Some (Ratings (where_rnum n i rows)).
Proof.
  revert d. induction idxs as [|j idxs IH]; intros d Hin; [by apply elem_of_nil in Hin|].
  unfold rr_tables in *. cbn [foldl].
  destruct (decide (i ∈ idxs)) as [Hi|Hi]; [by apply IH|].
  apply elem_of_cons in Hin as [->|?]; [|done].
  fold (rr_tables n rows (<[rrobin_part j := Ratings (where_rnum n j rows)]> d) idxs).
  rewrite rr_tables_lookup_other.
  - apply lookup_insert_eq.
  - intros k Hk E. apply rrobin_part_inj in E. by subst.
Qed.

Lemma bind_eq {A B} (m : Tx A) (f : A → Tx B) c :
  (m ≫= f) c
  = match m c with
    | Returned a c' => f a c'
    | Raised e c' => Raised e c'
    end.
Proof. reflexivity. Qed.

Lemma rr_loop_body name n rows i c :
  n ≠ 0 →
  pending c !! name = Some (Ratings rows) →
  pending c !! rrobin_part i = None →
  (execute (create_table (RROBIN_TABLE_PREFIX +:+ str i));;
   execute (insert_select_rrobin (RROBIN_TABLE_PREFIX +:+ str i) name n i)) c
  = Returned tt {| committed := committed c;
                   pending := <[rrobin_part i := Ratings (where_rnum n i rows)]> (pending c) |}.
Proof.
  intros Hn Hname Hfresh. fold (rrobin_part i).
  assert (name ≠ rrobin_part i) as Hne by (intros ->; by rewrite Hfresh in Hname).
  unfold mbind, Tx_bind, tx_bind, execute, create_table.
  rewrite Hfresh. cbn [pending committed].
  unfold insert_select_rrobin, insert_select.
  rewrite (proj2 (Z.eqb_neq n 0) Hn), lookup_insert_eq, lookup_insert_ne, Hname by done.
  by rewrite insert_insert_eq.
Qed.

Lemma rr_loop name n rows idxs c :
  n ≠ 0 → NoDup idxs →
  pending c !! name = Some (Ratings rows) →
  (∀ i, i ∈ idxs → pending c !! rrobin_part i = None) →
  for_each idxs (λ i,
    let table_name := RROBIN_TABLE_PREFIX +:+ str i in
    execute (create_table table_name);;
    execute (insert_select_rrobin table_name name n i)) c
  = Returned tt {| committed := committed c;
                   pending := rr_tables n rows (pending c) idxs |}.
Proof.
  intros Hn Hnd. revert c. induction Hnd as [|i idxs Hi Hnd IH]; intros c Hname Hfresh.
  - by destruct c.
  - cbn [for_each]. rewrite bind_eq. cbv zeta.
    rewrite (rr_loop_body name n rows i c) by (try done; apply Hfresh; by left).
    assert (name ≠ rrobin_part i) as Hne.
    { intros ->. rewrite (Hfresh i) in Hname by (by left). done. }
    rewrite IH; cbn [pending committed].
    + reflexivity.
    + by rewrite lookup_insert_ne.
    + intros j Hj. rewrite lookup_insert_ne; [apply Hfresh; by right|].
      intros E. apply rrobin_part_inj in E. by subst.
Qed.

(** The run of roundrobinpartition on a store that has the ratings table and
    none of the tables it creates. *)
Lemma roundrobinpartition_run name n rows c :
  0 < n →
  pending c !! name = Some (Ratings rows) →
  (∀ i, 0 ≤ i < n → pending c !! rrobin_part i = None) →
  pending c !! METADATA = None →
  int4 (Z.of_nat (length rows) `mod` n) = true →
  roundrobinpartition name n c
  = Returned tt (at_rest (<[METADATA := Metadata [Z.of_nat (length rows) `mod` n]]>
                            (rr_tables n rows (pending c) (range n)))).
Proof.
  intros Hn Hname Hfresh Hmeta Hint. unfold roundrobinpartition.
  rewrite (proj2 (Z.leb_gt n 0) Hn).
  rewrite bind_eq.
  rewrite (rr_loop name n rows);
    [|lia|apply NoDup_seqZ|done
     |intros i Hi; apply Hfresh; apply elem_of_seqZ in Hi; lia].
  assert (∀ i, i ∈ range n → name ≠ rrobin_part i) as Hne.
  { intros i Hi ->. apply elem_of_seqZ in Hi. rewrite Hfresh in Hname by lia. done. }
  unfold mbind, Tx_bind, tx_bind, fetch, lift, execute, commit, at_rest.
  cbn [pending committed]. unfold count_rows.
  rewrite rr_tables_lookup_other, Hname by done.
  unfold create_metadata. cbn [pending committed].
  rewrite rr_tables_lookup_other, Hmeta
    by (intros i _ E; by apply (rrobin_part_not_metadata i)).
  cbn [pending committed]. unfold insert_metadata.
  rewrite lookup_insert_eq, Hint, insert_insert_eq. reflexivity.
Qed.

Lemma ratings_only_fresh i : ratings_only !! rrobin_part i = None.
Proof.
  unfold ratings_only. apply lookup_singleton_ne.
  unfold rrobin_part. simpl. discriminate.
Qed.

(** C5. On a store that has the ratings table and none of the tables to be
    created, the round-robin bulk build with N > 0 partitions returns with
    everything committed; the record at position p (counted from 1, in the
    order of the ratings table) is row (p-1) div N of partition
    (p-1) mod N, and the cursor table holds the single value T mod N, for T
    the number of records.  The seed has to fit the 32-bit cursor column. *)
Theorem roundrobinpartition_routes name n rows c :
  0 < n →
  pending c !! name = Some (Ratings rows) →
  (∀ i, 0 ≤ i < n → pending c !! rrobin_part i = None) →
  pending c !! METADATA = None →
  Z.of_nat (length rows) `mod` n ≤ 2147483647 →
  ∃ d, roundrobinpartition name n c = Returned tt (at_rest d)
     ∧ (∀ p r, 1 ≤ p → rows !! Z.to_nat (p - 1) = Some r →
          ∃ part, d !! rrobin_part ((p - 1) `mod` n) = Some (Ratings part)
                  ∧ part !! Z.to_nat ((p - 1) `div` n) = Some r)
     ∧ d !! METADATA = Some (Metadata [Z.of_nat (length rows) `mod` n]).
Proof.
  intros Hn Hname Hfresh Hmeta Hseed.
  pose proof (Z.mod_pos_bound (Z.of_nat (length rows)) n Hn) as Hb.
  eexists. split; [|split].
  - apply roundrobinpartition_run; try done. unfold int4. lia.
  - intros p r Hp Hr.
    pose proof (Z.mod_pos_bound (p - 1) n Hn) as Hpb.
    exists (where_rnum n ((p - 1) `mod` n) rows). split.
    + rewrite lookup_insert_ne by (apply not_eq_sym, rrobin_part_not_metadata).
      apply rr_tables_lookup_part, elem_of_seqZ. lia.
    + rewrite where_rnum_lookup by lia. rewrite <- Hr. f_equal.
      pose proof (Z.div_mod (p - 1) n). pose proof (Z.div_pos (p - 1) n). lia.
  - apply lookup_insert_eq.
Qed.

Lemma roundrobinpartition_routes_witness :
  ∃ d, roundrobinpartition "ratings" 3 (at_rest ratings_only) = Returned tt (at_rest d)
     ∧ (∀ p r, 1 ≤ p → seven_rows !! Z.to_nat (p - 1) = Some r →
          ∃ part, d !! rrobin_part ((p - 1) `mod` 3) = Some (Ratings part)
                  ∧ part !! Z.to_nat ((p - 1) `div` 3) = Some r)
     ∧ d !! METADATA = Some (Metadata [1]).
Proof.
  apply (roundrobinpartition_routes "ratings" 3 seven_rows (at_rest ratings_only)).
  - lia.
  - reflexivity.
  - intros i _. apply ratings_only_fresh.
  - reflexivity.
  - vm_compute. discriminate.
Defined.

Lemma partitions_rr_tables n rows (d : gmap string table) v :
  partitions RROBIN_TABLE_PREFIX n (<[METADATA := v]> (rr_tables n rows d (range n)))
  = map (λ i, where_rnum n i rows) (range n).
Proof.
  unfold partitions. apply map_ext_in. intros i Hi%list_elem_of_In.
  unfold rows_of. fold (rrobin_part i).
  rewrite lookup_insert_ne by (apply not_eq_sym, rrobin_part_not_metadata).
  by rewrite rr_tables_lookup_part.
Qed.

(** C7. On a store that has the ratings table and none of the tables to be
    created, after the round-robin bulk build with N > 0 partitions the N
    partition tables exist, their rows taken together are the rows of the
    ratings table, each exactly as often as there, and the sizes of any two
    partitions differ by at most one.  The ratings table is unchanged. *)
Theorem roundrobinpartition_balanced name n rows c :
  0 < n →
  pending c !! name = Some (Ratings rows) →
  (∀ i, 0 ≤ i < n → pending c !! rrobin_part i = None) →
  pending c !! METADATA = None →
  Z.of_nat (length rows) `mod` n ≤ 2147483647 →
  ∃ d, roundrobinpartition name n c = Returned tt (at_rest d)
     ∧ d !! name = Some (Ratings rows)
     ∧ (∀ i, 0 ≤ i < n → ∃ part, d !! rrobin_part i = Some (Ratings part))
     ∧ concat (partitions RROBIN_TABLE_PREFIX n d) ≡ₚ rows
     ∧ (∀ i j, 0 ≤ i < n → 0 ≤ j < n →
          (length (rows_of d (rrobin_part i)) ≤ S (length (rows_of d (rrobin_part j))))%nat).
Proof.
  intros Hn Hname Hfresh Hmeta Hseed.
  pose proof (Z.mod_pos_bound (Z.of_nat (length rows)) n Hn) as Hb.
  assert (∀ i, 0 ≤ i < n →
    (<[METADATA := Metadata [Z.of_nat (length rows) `mod` n]]>
       (rr_tables n rows (pending c) (range n)) : gmap string table) !! rrobin_part i
    = Some (Ratings (where_rnum n i rows))) as Hpart.
  { intros i Hi.
    rewrite lookup_insert_ne by (apply not_eq_sym, rrobin_part_not_metadata).
    apply rr_tables_lookup_part, elem_of_seqZ. lia. }
  eexists. split; [|split; [|split; [|split]]].
  - apply roundrobinpartition_run; try done. unfold int4. lia.
  - rewrite lookup_insert_ne by (intros E; rewrite <- E, Hmeta in Hname; done).
    rewrite rr_tables_lookup_other; [done|].
    intros i Hi%elem_of_seqZ ->. rewrite Hfresh in Hname by lia. done.
  - intros i Hi. eexists. by apply Hpart.
  - rewrite partitions_rr_tables. by apply where_rnum_partition.
  - intros i j Hi Hj. unfold rows_of. rewrite !Hpart by done.
    by apply where_rnum_balanced.
Qed.

Lemma roundrobinpartition_balanced_witness :
  ∃ d, roundrobinpartition "ratings" 3 (at_rest ratings_only) = Returned tt (at_rest d)
     ∧ d !! "ratings" = Some (Ratings seven_rows)
     ∧ (∀ i, 0 ≤ i < 3 → ∃ part, d !! rrobin_part i = Some (Ratings part))
     ∧ concat (partitions RROBIN_TABLE_PREFIX 3 d) ≡ₚ seven_rows
     ∧ (∀ i j, 0 ≤ i < 3 → 0 ≤ j < 3 →
          (length (rows_of d (rrobin_part i)) ≤ S (length (rows_of d (rrobin_part j))))%nat).
Proof.
  apply (roundrobinpartition_balanced "ratings" 3 seven_rows (at_rest ratings_only)).
  - lia.
  - reflexivity.
  - intros i _. apply ratings_only_fresh.
  - reflexivity.
  - vm_compute. discriminate.
Defined.

(** ** Round-robin inserts *)

Lemma with_row_insert name r rows (d : gmap string table) :
  d !! name = Some (Ratings rows) →
  with_row name r d = <[name := Ratings (rows ++ [r])]> d.
Proof. intros H. unfold with_row. by rewrite H. Qed.

Lemma with_row_ratings name r (d : gmap string table) k :
  (∃ rows, d !! k = Some (Ratings rows)) →
  ∃ rows, with_row name r d !! k = Some (Ratings rows).
Proof.
  intros [rows Hk]. unfold with_row.
  destruct (d !! name) as [[rows'|]|] eqn:E; eauto.
  destruct (decide (name = k)) as [->|]; [rewrite lookup_insert_eq|rewrite lookup_insert_ne]; eauto.
Qed.

Lemma with_row_metadata name r (d : gmap string table) vals :
  d !! METADATA = Some (Metadata vals) →
  with_row name r d !! METADATA = Some (Metadata vals).
Proof.
  intros Hm. unfold with_row.
  destruct (d !! name) as [[rows'|]|] eqn:E; try done.
  rewrite lookup_insert_ne; [done|]. intros ->. by rewrite Hm in E.
Qed.

Lemma catalog_with_row prefix name r (d : gmap string table) :
  catalog prefix (with_row name r d) = catalog prefix d.
Proof.
  unfold with_row. destruct (d !! name) as [[rows'|]|] eqn:E; try done.
  apply catalog_insert_existing. by rewrite E.
Qed.

Lemma insert_values_with_row name r (d : gmap string table) :
  (∃ rows, d !! name = Some (Ratings rows)) → valid_record r →
  insert_values name r d = Ok (with_row name r d).
Proof.
  intros [rows Hn] (Hu & Hi & Hr). destruct r as [[u i] rating].
  rewrite (with_row_insert _ _ _ _ Hn). by apply insert_values_ok.
Qed.

Lemma set_cursor_ratings v (d : gmap string table) k :
  k ≠ METADATA →
  (∃ rows, d !! k = Some (Ratings rows)) →
  ∃ rows, (<[METADATA := Metadata v]> d : gmap string table) !! k = Some (Ratings rows).
Proof. intros Hk H. by rewrite lookup_insert_ne. Qed.

Lemma ratings_not_metadata (d : gmap string table) k rows vals :
  d !! k = Some (Ratings rows) → d !! METADATA = Some (Metadata vals) → k ≠ METADATA.
Proof. intros Hk Hm ->. by rewrite Hm in Hk. Qed.

Lemma rr_ready_inserted n name r cur d :
  0 < n → rr_ready n name cur d → rr_ready n name (cur + 1) (rr_inserted n name r cur d).
Proof.
  intros Hn (Hcat & [rows Hname] & Hparts & Hm). unfold rr_inserted.
  split; [|split; [|split]].
  - rewrite catalog_with_row, catalog_insert_existing, catalog_with_row; [done|].
    by rewrite (with_row_metadata _ _ _ _ Hm).
  - apply with_row_ratings, set_cursor_ratings, with_row_ratings;
      eauto using ratings_not_metadata.
  - intros i Hi. apply with_row_ratings, set_cursor_ratings, with_row_ratings;
      auto using rrobin_part_not_metadata.
  - apply with_row_metadata, lookup_insert_eq.
Qed.

(** One insert, when the round-robin family is in place. *)
Lemma roundrobininsert_step n name r cur d :
  0 < n → rr_ready n name cur d → valid_record r →
  -2147483648 ≤ cur + 1 ≤ 2147483647 →
  roundrobininsert name r.1.1 r.1.2 r.2 (at_rest d)
  = Returned tt (at_rest (rr_inserted n name r cur d)).
Proof.
  intros Hn (Hcat & Hname & Hparts & Hm) Hr Hcur.
  pose proof Hr as (Hu & Hi & Hrating).
  destruct r as [[u i] rating]. cbn [fst snd] in *.
  unfold roundrobininsert. rewrite (valid_rating_guard _ Hrating).
  rewrite bind_eq. unfold execute at 1. cbn [pending committed at_rest].
  rewrite (insert_values_with_row name (u, i, rating) d Hname Hr).
  rewrite bind_eq, count_partitions_eq. cbn [pending committed].
  rewrite catalog_with_row, Hcat, (proj2 (Z.leb_gt n 0) Hn).
  rewrite bind_eq. unfold fetch, lift, select_next_use. cbn [pending committed at_rest].
  rewrite (with_row_metadata _ _ _ _ Hm).
  rewrite bind_eq. unfold execute at 1, update_next_use. cbn [pending committed at_rest].
  rewrite (with_row_metadata _ _ _ _ Hm). cbn [forallb map].
  assert (int4 (cur + 1) = true) as -> by (unfold int4; lia).
  cbn [andb]. rewrite bind_eq. unfold execute at 1. cbn [pending committed].
  pose proof (Z.mod_pos_bound cur n Hn) as Hb.
  rewrite (insert_values_with_row (RROBIN_TABLE_PREFIX +:+ str (cur `mod` n)) (u, i, rating)).
  - reflexivity.
  - apply set_cursor_ratings; [apply rrobin_part_not_metadata|].
    apply with_row_ratings, Hparts. lia.
  - done.
Qed.

(** The store after the records have been inserted in order from cursor
    value [cur] on. *)
Lemma roundrobininsert_all_run n name records :
  0 < n → Forall valid_record records →
  ∀ cur d, rr_ready n name cur d →
    -2147483648 ≤ cur + 1 → cur + Z.of_nat (length records) ≤ 2147483647 →
    ∃ d', roundrobininsert_all name records (at_rest d) = Returned tt (at_rest d')
        ∧ rr_ready n name (cur + Z.of_nat (length records)) d'.
Proof.
  intros Hn. induction 1 as [|r records Hr Hrs IH]; intros cur d Hready Hlo Hhi.
  - exists d. split; [done|]. by rewrite Z.add_0_r.
  - cbn [length] in *. unfold roundrobininsert_all. cbn [for_each].
    rewrite bind_eq, (roundrobininsert_step n name r cur d) by (try done; lia).
    destruct (IH (cur + 1) (rr_inserted n name r cur d)) as (d' & Hrun & Hready');
      [by apply rr_ready_inserted|lia|lia|].
    exists d'. split; [exact Hrun|].
    by replace (cur + Z.of_nat (S (length records)))
      with (cur + 1 + Z.of_nat (length records)) by lia.
Qed.

(** C6, amended.  With the round-robin family in place (N > 0 partitions,
    cursor value c) and as long as the cursor stays within the 32-bit range
    of its column, consecutive inserts of well-formed records all return
    with their writes committed, and call number k (from 0) appends its
    record to the ratings table and to partition (c + k) mod N and sets the
    cursor to c + k + 1: the stored cursor grows by one per insert and is
    reduced modulo N only when it is read. *)
Theorem roundrobininsert_in_turn n name cur records d :
  0 < n → rr_ready n name cur d → Forall valid_record records →
  -2147483648 ≤ cur → cur + Z.of_nat (length records) ≤ 2147483647 →
  ∀ (k : nat) r, records !! k = Some r →
    ∃ d_k, roundrobininsert_all name (take k records) (at_rest d)
           = Returned tt (at_rest d_k)
         ∧ rr_ready n name (cur + Z.of_nat k) d_k
         ∧ roundrobininsert name r.1.1 r.1.2 r.2 (at_rest d_k)
           = Returned tt (at_rest
               (with_row (rrobin_part ((cur + Z.of_nat k) `mod` n)) r
                  (<[METADATA := Metadata [cur + Z.of_nat k + 1]]> (with_row name r d_k)))).
Proof.
  intros Hn Hready Hvalid Hlo Hhi k r Hk.
  assert (k < length records)%nat as Hlt by (eapply lookup_lt_Some; eauto).
  assert (length (take k records) = k) as Hlen
    by (apply length_take_le, Nat.lt_le_incl, Hlt).
  destruct (roundrobininsert_all_run n name (take k records) Hn
              (Forall_take _ k _ Hvalid) cur d Hready) as (d_k & Hrun & Hready_k);
    [lia|rewrite Hlen; lia|].
  rewrite Hlen in Hready_k.
  exists d_k. split; [exact Hrun|]. split; [exact Hready_k|].
  apply (roundrobininsert_step n name r (cur + Z.of_nat k) d_k); try done.
  - eapply Forall_lookup_1; eauto.
  - lia.
Qed.

Lemma three_rrobin_ready : rr_ready 3 "ratings" 1 three_rrobin.
Proof.
  split; [reflexivity|]. split; [eexists; reflexivity|]. split; [|reflexivity].
  intros i Hi. assert (i = 0 ∨ i = 1 ∨ i = 2) as [->|[->| ->]] by lia;
    eexists; reflexivity.
Defined.

Lemma roundrobininsert_in_turn_witness :
  ∃ d_k, roundrobininsert_all "ratings" [] (at_rest three_rrobin)
         = Returned tt (at_rest d_k)
       ∧ rr_ready 3 "ratings" 1 d_k
       ∧ roundrobininsert "ratings" 8 12 three (at_rest d_k)
         = Returned tt (at_rest
             (with_row (rrobin_part 1) (8, 12, three)
                (<[METADATA := Metadata [2]]> (with_row "ratings" (8, 12, three) d_k)))).
Proof.
  assert (Forall valid_record [(8, 12, three); (9, 12, five)]) as Hvalid.
  { repeat constructor. }
  apply (roundrobininsert_in_turn 3 "ratings" 1 [(8, 12, three); (9, 12, five)]
           three_rrobin ltac:(lia) three_rrobin_ready Hvalid ltac:(lia) ltac:(simpl; lia)
           0%nat (8, 12, three) eq_refl).
Defined.

Lemma cursor_at_max_ready : rr_ready 2 "ratings" 2147483647 cursor_at_max.
Proof.
  split; [reflexivity|]. split; [eexists; reflexivity|]. split; [|reflexivity].
  intros i Hi. assert (i = 0 ∨ i = 1) as [->| ->] by lia; eexists; reflexivity.
Qed.

(** The claim C6 as stated fails at the largest cursor value the column can
    hold: with two partitions in place and the cursor at 2147483647, the
    insert of a well-formed record raises when it increments the cursor; the
    record is in no partition and the cursor is not advanced. *)
Lemma cursor_overflow :
  rr_ready 2 "ratings" 2147483647 cursor_at_max
  ∧ valid_record (1, 10, three)
  ∧ roundrobininsert "ratings" 1 10 three (at_rest cursor_at_max)
    = Raised NumericValueOutOfRange
        (at_rest (<["ratings" := Ratings [(1, 10, three)]]> cursor_at_max)).
Proof.
  split; [exact cursor_at_max_ready|]. split; [repeat constructor|].
  vm_compute. reflexivity.
Qed.

(** ** What the operations commit *)

Lemma no_commit_lift {A} (r : result A) : no_commit (lift r).
Proof. intros c. by destruct r. Qed.

Lemma no_commit_execute stmt : no_commit (execute stmt).
Proof. intros c. unfold execute. by destruct (stmt (pending c)). Qed.

Lemma no_commit_fetch {A} (q : gmap string table → result A) : no_commit (fetch q).
Proof. intros c. unfold fetch. apply no_commit_lift. Qed.

Lemma no_commit_bind {A B} (m : Tx A) (f : A → Tx B) :
  no_commit m → (∀ a, no_commit (f a)) → no_commit (m ≫= f).
Proof.
  intros Hm Hf c. rewrite bind_eq. specialize (Hm c).
  destruct (m c) as [a c'|e c']; [|exact Hm].
  cbn [conn_of] in Hm. rewrite <- Hm. apply Hf.
Qed.

Lemma no_commit_for_each {A} (l : list A) (body : A → Tx unit) :
  (∀ x, no_commit (body x)) → no_commit (for_each l body).
Proof.
  intros Hb. induction l as [|x l IH]; [done|].
  cbn [for_each]. apply no_commit_bind; auto.
Qed.

Lemma all_or_nothing_commit : all_or_nothing commit.
Proof. by intros c. Qed.

Lemma all_or_nothing_bind {A B} (m : Tx A) (f : A → Tx B) :
  no_commit m → (∀ a, all_or_nothing (f a)) → all_or_nothing (m ≫= f).
Proof.
  intros Hm Hf c. rewrite bind_eq. specialize (Hm c).
  destruct (m c) as [a c'|e c']; [|exact Hm].
  cbn [conn_of] in Hm. specialize (Hf a c'). rewrite <- Hm.
  by destruct (f a c').
Qed.

(** X16. A bulk build started on a connection with no open transaction:
    when it returns, everything it wrote is committed; when it raises, the
    committed store is the one it started from. *)
Theorem bulk_build_all_or_nothing name n d :
  match rangepartition name n (at_rest d) with
  | Returned _ c' => c' = at_rest (pending c')
  | Raised _ c' => committed c' = d
  end
  ∧ match roundrobinpartition name n (at_rest d) with
    | Returned _ c' => c' = at_rest (pending c')
    | Raised _ c' => committed c' = d
    end.
Proof.
  split.
  - unfold rangepartition. destruct (n <=? 0); [done|].
    apply (all_or_nothing_bind _ _ (no_commit_lift _)). intros fn.
    apply (all_or_nothing_bind _ _ (no_commit_lift _)). intros delta.
    apply all_or_nothing_bind; [|intros _; apply all_or_nothing_commit].
    apply no_commit_for_each. intros i.
    apply (no_commit_bind _ _ (no_commit_lift _)). intros fi. cbv zeta.
    apply (no_commit_bind _ _ (no_commit_execute _)). intros _.
    destruct (i =? 0); apply no_commit_execute.
  - unfold roundrobinpartition. destruct (n <=? 0); [done|].
    apply all_or_nothing_bind.
    { apply no_commit_for_each. intros i. cbv zeta.
      apply (no_commit_bind _ _ (no_commit_execute _)). intros _.
      apply no_commit_execute. }
    intros _. apply (all_or_nothing_bind _ _ (no_commit_fetch _)). intros total.
    apply (all_or_nothing_bind _ _ (no_commit_execute _)). intros _. cbv zeta.
    apply (all_or_nothing_bind _ _ (no_commit_execute _)). intros _.
    apply all_or_nothing_commit.
Qed.

(** C2, at three range partitions and a rating of 5.0.  After the bulk
    build with N = 3 the catalog reports three partitions.  The insert of
    (2, 10, 5.0) writes the record to the ratings table, the catalog query
    commits it, the index arithmetic yields 3, and the INSERT into the
    missing table range_part3 raises: the ratings table has durably gained
    the record and no partition has, against the docstring of rangeinsert,
    by which the record appears in the ratings table and in its
    partition. *)
Theorem partial_write_with_partitions :
  ∃ d c', rangepartition "ratings" 3 (at_rest five_star_only) = Returned tt (at_rest d)
    ∧ catalog RANGE_TABLE_PREFIX d = 3
    ∧ range_index 3 five = Ok 3
    ∧ rangeinsert "ratings" 2 10 five (at_rest d) = Raised UndefinedTable c'
    ∧ committed c' = <["ratings" := Ratings [(1, 10, five); (2, 10, five)]]> d
    ∧ partitions RANGE_TABLE_PREFIX 3 (committed c') = partitions RANGE_TABLE_PREFIX 3 d.
Proof.
  eexists _, _. split; [vm_compute; reflexivity|].
  split; [vm_compute; reflexivity|]. split; [vm_compute; reflexivity|].
  split; [vm_compute; reflexivity|]. split; vm_compute; reflexivity.
Qed.

(** * Further properties of the functions *)

(** ** Bulk builds: the guard and a second run *)

(** X1. A bulk build asked for zero or a negative number of partitions
    returns at once: no table is created and nothing is committed. *)
Theorem bulk_build_nonpositive_is_noop name n c :
  n ≤ 0 →
  rangepartition name n c = Returned tt c
  ∧ roundrobinpartition name n c = Returned tt c.
Proof.
  intros Hn. unfold rangepartition, roundrobinpartition.
  by rewrite (proj2 (Z.leb_le n 0) Hn).
Qed.

Lemma bulk_build_nonpositive_is_noop_witness :
  rangepartition "ratings" (-2) (at_rest ratings_only) = Returned tt (at_rest ratings_only)
  ∧ roundrobinpartition "ratings" (-2) (at_rest ratings_only)
    = Returned tt (at_rest ratings_only).
Proof. apply bulk_build_nonpositive_is_noop. lia. Defined.

Lemma range_0 n : 0 < n → range n = 0 :: seqZ 1 (n - 1).
Proof. intros Hn. unfold range. by rewrite seqZ_cons by lia. Qed.

(** X2. A bulk build with N > 0 on a store that already has the first
    partition table of its family raises and leaves the connection as it
    was: the build cannot be run a second time. *)
Theorem bulk_build_over_existing_partition name n c :
  0 < n →
  (is_Some (pending c !! range_part 0) → ∃ e, rangepartition name n c = Raised e c)
  ∧ (is_Some (pending c !! rrobin_part 0) →
     roundrobinpartition name n c = Raised DuplicateTable c).
Proof.
  intros Hn. split; intros [t Ht].
  - unfold rangepartition. rewrite (proj2 (Z.leb_gt n 0) Hn), bind_eq.
    destruct (of_int n) as [fn|e]; [|by exists e].
    cbn [lift]. rewrite bind_eq.
    destruct (truediv five fn) as [delta|e]; [|by exists e].
    cbn [lift]. exists DuplicateTable.
    rewrite bind_eq, (range_0 n Hn). cbn [for_each].
    rewrite bind_eq, bind_eq. cbn [of_int binary_normalize lift]. cbv zeta.
    rewrite bind_eq. unfold execute at 1, create_table.
    fold (range_part 0). by rewrite Ht.
  - unfold roundrobinpartition. rewrite (proj2 (Z.leb_gt n 0) Hn), bind_eq.
    rewrite (range_0 n Hn). cbn [for_each]. cbv zeta.
    rewrite bind_eq, bind_eq. unfold execute at 1, create_table.
    fold (rrobin_part 0). by rewrite Ht.
Qed.

Lemma bulk_build_over_existing_partition_witness :
  (∃ e, rangepartition "ratings" 3 (at_rest both_families) = Raised e (at_rest both_families))
  ∧ roundrobinpartition "ratings" 3 (at_rest both_families)
    = Raised DuplicateTable (at_rest both_families).
Proof.
  destruct (bulk_build_over_existing_partition "ratings" 3 (at_rest both_families))
    as [H1 H2]; [lia|].
  split; [apply H1|apply H2]; eexists; reflexivity.
Defined.

(** ** loadratings *)

(** X3. When the path is a regular file whose lines all fit their columns,
    loadratings returns with everything committed: the table of the given
    name holds exactly the (userid, movieid, rating) of the lines, in file
    order, whatever it held before and whether or not it existed, and every
    other table is as the connection saw it.  Ratings are not checked against
    [0, 5]. *)
Theorem loadratings_replaces_table fs name path lines c :
  fs !! path = Some (File lines) →
  forallb line_ok lines = true →
  loadratings fs name path c
  = Returned tt (at_rest (<[name := Ratings (map fst lines)]> (pending c))).
Proof.
  intros Hfile Hok. unfold loadratings, path_exists.
  rewrite bool_decide_eq_true_2 by (by rewrite Hfile). cbn [negb].
  rewrite bind_eq. unfold execute at 1, drop_table_if_exists. cbn [pending committed].
  rewrite bind_eq. unfold execute at 1, create_staging_table. cbn [pending committed].
  rewrite lookup_delete_eq.
  rewrite bind_eq. unfold open. rewrite Hfile. cbn [lift].
  rewrite bind_eq. unfold execute at 1, copy_from. cbn [pending committed].
  rewrite lookup_insert_eq, Hok. cbn [app].
  rewrite bind_eq. unfold execute at 1, alter_drop_columns. cbn [pending committed].
  rewrite lookup_insert_eq. unfold commit, at_rest. cbn [pending committed].
  by rewrite insert_insert_eq, insert_delete_eq.
Qed.

Lemma loadratings_replaces_table_witness :
  loadratings sample_fs "ratings" "test_data.dat" (at_rest ratings_only)
  = Returned tt (at_rest (<["ratings" := Ratings (map fst three_lines)]> ratings_only)).
Proof.
  apply (loadratings_replaces_table sample_fs "ratings" "test_data.dat" three_lines
           (at_rest ratings_only)); reflexivity.
Defined.

(** X4. Whatever the file system and the store: when loadratings returns,
    nothing is left uncommitted, and when it raises (a directory at the path,
    a value out of the range of its column), nothing was committed: the
    table it dropped inside the transaction is still the durable one. *)
Theorem loadratings_all_or_nothing fs name path d :
  match loadratings fs name path (at_rest d) with
  | Returned _ c' => c' = at_rest (pending c')
  | Raised _ c' => committed c' = d
  end.
Proof.
  unfold loadratings. destruct (negb (path_exists fs path)); [done|].
  apply (all_or_nothing_bind _ _ (no_commit_execute _)). intros _.
  apply (all_or_nothing_bind _ _ (no_commit_execute _)). intros _.
  apply (all_or_nothing_bind _ _ (no_commit_lift _)). intros lines.
  apply (all_or_nothing_bind _ _ (no_commit_execute _)). intros _.
  apply (all_or_nothing_bind _ _ (no_commit_execute _)). intros _.
  apply all_or_nothing_commit.
Qed.

(** X5. A path that exists but is a directory: loadratings raises when it
    opens the file, after it has dropped the table inside the transaction;
    the committed store is untouched. *)
Theorem loadratings_directory fs name path d :
  fs !! path = Some Directory →
  ∃ c', loadratings fs name path (at_rest d) = Raised IsADirectoryError c'
      ∧ committed c' = d
      ∧ pending c' !! name = Some (Ratings []).
Proof.
  intros Hdir. unfold loadratings, path_exists.
  rewrite bool_decide_eq_true_2 by (by rewrite Hdir). cbn [negb].
  rewrite bind_eq. unfold execute at 1, drop_table_if_exists. cbn [pending committed at_rest].
  rewrite bind_eq. unfold execute at 1, create_staging_table. cbn [pending committed].
  rewrite lookup_delete_eq.
  rewrite bind_eq. unfold open. rewrite Hdir. cbn [lift].
  eexists. split; [reflexivity|]. split; [reflexivity|].
  cbn [pending]. apply lookup_insert_eq.
Qed.

Lemma loadratings_directory_witness :
  ∃ c', loadratings sample_fs "ratings" "data" (at_rest ratings_only)
        = Raised IsADirectoryError c'
      ∧ committed c' = ratings_only
      ∧ pending c' !! "ratings" = Some (Ratings []).
Proof.
  apply (loadratings_directory sample_fs "ratings" "data" ratings_only). reflexivity.
Defined.

(** ** Inserts on a store that is not prepared *)

(** X6. An incremental insert of a rating in [0, 5] when the ratings table
    does not exist raises on its first statement; the connection is left as
    it was. *)
Theorem insert_into_missing_table name userid itemid rating c :
  valid_rating rating →
  pending c !! name = None →
  rangeinsert name userid itemid rating c = Raised UndefinedTable c
  ∧ roundrobininsert name userid itemid rating c = Raised UndefinedTable c.
Proof.
  intros Hr Hn. unfold rangeinsert, roundrobininsert.
  rewrite (valid_rating_guard _ Hr), !bind_eq.
  unfold execute, insert_values. by rewrite Hn.
Qed.

Lemma insert_into_missing_table_witness :
  rangeinsert "votes" 8 12 three (at_rest ratings_only)
  = Raised UndefinedTable (at_rest ratings_only)
  ∧ roundrobininsert "votes" 8 12 three (at_rest ratings_only)
    = Raised UndefinedTable (at_rest ratings_only).
Proof.
  apply (insert_into_missing_table "votes" 8 12 three (at_rest ratings_only)).
  - split; reflexivity.
  - reflexivity.
Defined.

(** X7. A round-robin insert of a well-formed record while the catalog
    reports partitions but the cursor table does not exist: the call raises
    when it reads the cursor, after count_partitions has committed the
    record in the ratings table; no partition receives it. *)
Theorem roundrobininsert_missing_cursor name r d :
  valid_record r →
  (∃ rows, d !! name = Some (Ratings rows)) →
  0 < catalog RROBIN_TABLE_PREFIX d →
  d !! METADATA = None →
  roundrobininsert name r.1.1 r.1.2 r.2 (at_rest d)
  = Raised UndefinedTable (at_rest (with_row name r d)).
Proof.
  intros Hr Hname Hcat Hm.
  pose proof Hr as (Hu & Hi & Hrating).
  destruct r as [[u i] rating]. cbn [fst snd] in *.
  unfold roundrobininsert. rewrite (valid_rating_guard _ Hrating).
  rewrite bind_eq. unfold execute at 1. cbn [pending committed at_rest].
  rewrite (insert_values_with_row name (u, i, rating) d Hname Hr).
  rewrite bind_eq, count_partitions_eq. cbn [pending committed].
  rewrite catalog_with_row, (proj2 (Z.leb_gt _ 0) Hcat).
  rewrite bind_eq. unfold fetch, lift, select_next_use. cbn [pending committed at_rest].
  destruct Hname as [rows Hname].
  rewrite (with_row_insert _ _ _ _ Hname), lookup_insert_ne, Hm; [done|].
  intros ->. by rewrite Hm in Hname.
Qed.

Lemma roundrobininsert_missing_cursor_witness :
  roundrobininsert "ratings" 8 12 three (at_rest cursor_missing)
  = Raised UndefinedTable (at_rest (with_row "ratings" (8, 12, three) cursor_missing)).
Proof.
  apply (roundrobininsert_missing_cursor "ratings" (8, 12, three) cursor_missing).
  - repeat constructor.
  - eexists. reflexivity.
  - vm_compute. reflexivity.
  - reflexivity.
Defined.

(** ** The catalog after a bulk build *)

Lemma filter_length_Permutation {A} (f : A → bool) (l l' : list A) :
  l ≡ₚ l' → length (List.filter f l) = length (List.filter f l').
Proof.
  induction 1 as [|x l l' _ IH|x y l|l l' l'' _ IH1 _ IH2]; cbn [List.filter].
  - done.
  - destruct (f x); cbn [length]; by rewrite IH.
  - by destruct (f x), (f y).
  - by rewrite IH1.
Qed.

Lemma catalog_insert_fresh prefix name t (d : gmap string table) :
  d !! name = None →
  catalog prefix (<[name := t]> d)
  = catalog prefix d + (if relname_like (prefix +:+ "%") name then 1 else 0).
Proof.
  intros Hfresh. unfold catalog. rewrite dom_insert_L.
  rewrite (filter_length_Permutation _ _ (name :: elements (dom d))).
  - cbn [List.filter]. destruct (relname_like _ name); cbn [length]; lia.
  - apply elements_union_singleton. by apply not_elem_of_dom.
Qed.

Lemma catalog_zero_no_match prefix (d : gmap string table) name :
  catalog prefix d = 0 → is_Some (d !! name) →
  relname_like (prefix +:+ "%") name = false.
Proof.
  unfold catalog. intros Hz Hin.
  apply elem_of_dom, elem_of_elements, list_elem_of_In in Hin.
  destruct (relname_like (prefix +:+ "%") name) eqn:E; [|done].
  assert (In name (List.filter (relname_like (prefix +:+ "%")) (elements (dom d)))) as Hf
    by (apply filter_In; by split).
  destruct (List.filter _ _); [done|]. cbn [length] in Hz. lia.
Qed.

Lemma like_percent s : like ["%"%char] s = true.
Proof.
  induction s as [|a s IH]; [reflexivity|].
  cbn in *. exact IH.
Qed.

Lemma rrobin_part_like i :
  relname_like (RROBIN_TABLE_PREFIX +:+ "%") (rrobin_part i) = true.
Proof. unfold relname_like, rrobin_part. cbn. apply like_percent. Qed.

Lemma range_part_like i :
  relname_like (RANGE_TABLE_PREFIX +:+ "%") (range_part i) = true.
Proof. unfold relname_like, range_part. cbn. apply like_percent. Qed.

Lemma rrobin_part_not_like_range i :
  relname_like (RANGE_TABLE_PREFIX +:+ "%") (rrobin_part i) = false.
Proof. reflexivity. Qed.

Lemma catalog_rr_tables n rows idxs (d : gmap string table) :
  NoDup idxs → (∀ i, i ∈ idxs → d !! rrobin_part i = None) →
  catalog RROBIN_TABLE_PREFIX (rr_tables n rows d idxs)
  = catalog RROBIN_TABLE_PREFIX d + Z.of_nat (length idxs)
  ∧ catalog RANGE_TABLE_PREFIX (rr_tables n rows d idxs) = catalog RANGE_TABLE_PREFIX d.
Proof.
  intros Hnd. revert d. induction Hnd as [|i idxs Hi Hnd IH]; intros d Hfresh.
  - cbn. split; [lia|done].
  - unfold rr_tables. cbn [foldl length].
    fold (rr_tables n rows (<[rrobin_part i := Ratings (where_rnum n i rows)]> d) idxs).
    destruct (IH (<[rrobin_part i := Ratings (where_rnum n i rows)]> d)) as [IH1 IH2].
    { intros j Hj. rewrite lookup_insert_ne; [apply Hfresh; by right|].
      intros E. apply rrobin_part_inj in E. by subst. }
    rewrite IH1, IH2, !catalog_insert_fresh by (apply Hfresh; by left).
    rewrite rrobin_part_like, rrobin_part_not_like_range. lia.
Qed.

Lemma roundrobinpartition_distributes name n rows d :
  0 < n →
  d !! name = Some (Ratings rows) →
  catalog RROBIN_TABLE_PREFIX d = 0 →
  d !! METADATA = None →
  Z.of_nat (length rows) `mod` n ≤ 2147483647 →
  ∃ d', roundrobinpartition name n (at_rest d) = Returned tt (at_rest d')
      ∧ rr_distributed n name rows (Z.of_nat (length rows) `mod` n) d'
      ∧ catalog RANGE_TABLE_PREFIX d' = catalog RANGE_TABLE_PREFIX d
      ∧ (∀ k, k ≠ METADATA → (∀ i, k ≠ rrobin_part i) → d' !! k = d !! k).
Proof.
  intros Hn Hname Hcat Hmeta Hseed.
  pose proof (Z.mod_pos_bound (Z.of_nat (length rows)) n Hn) as Hb.
  assert (∀ i, d !! rrobin_part i = None) as Hfresh.
  { intros i. destruct (d !! rrobin_part i) eqn:E; [|done].
    pose proof (catalog_zero_no_match _ _ (rrobin_part i) Hcat (mk_is_Some _ _ E)) as Hno.
    by rewrite rrobin_part_like in Hno. }
  assert (∀ i, name ≠ rrobin_part i) as Hne.
  { intros i ->. by rewrite Hfresh in Hname. }
  destruct (catalog_rr_tables n rows (range n) d) as [Hc1 Hc2];
    [apply NoDup_seqZ|by intros|].
  eexists. split; [|split; [|split]].
  - apply (roundrobinpartition_run name n rows (at_rest d)); try done.
    unfold int4. lia.
  - cbn [pending at_rest]. split; [|split; [|split; [|split; [|split]]]].
    + rewrite catalog_insert_fresh, Hc1, Hcat.
      * unfold range. rewrite length_seqZ.
        change (relname_like (RROBIN_TABLE_PREFIX +:+ "%") METADATA) with false.
        cbv iota. lia.
      * rewrite rr_tables_lookup_other; [done|].
        intros i _. apply not_eq_sym, rrobin_part_not_metadata.
    + rewrite lookup_insert_ne by (intros E; rewrite <- E, Hmeta in Hname; done).
      by rewrite rr_tables_lookup_other.
    + intros i Hi.
      rewrite lookup_insert_ne by (apply not_eq_sym, rrobin_part_not_metadata).
      apply rr_tables_lookup_part, elem_of_seqZ. lia.
    + apply lookup_insert_eq.
    + apply Z.mod_mod. lia.
    + exact Hne.
  - cbn [pending at_rest]. rewrite catalog_insert_fresh, Hc2.
    + change (relname_like (RANGE_TABLE_PREFIX +:+ "%") METADATA) with false.
      cbv iota. lia.
    + rewrite rr_tables_lookup_other; [done|].
      intros i _. apply not_eq_sym, rrobin_part_not_metadata.
  - intros k Hk Hki. cbn [pending at_rest].
    rewrite lookup_insert_ne by done. apply rr_tables_lookup_other. auto.
Qed.

(** X8. On a store with the ratings table, an empty round-robin catalog and
    no cursor table, the round-robin bulk build with N > 0 partitions
    returns with everything committed; afterwards the catalog of the family
    reports N, the ratings table is what it was, the k-th row of partition i
    is the row of the ratings table at position i + k N (counted from 0,
    and none when the table is shorter), the cursor is T mod N, the range
    catalog is what it was, and every table that is neither a round-robin
    partition nor the cursor table is unchanged. *)
Theorem roundrobinpartition_establishes name n rows d :
  0 < n →
  d !! name = Some (Ratings rows) →
  catalog RROBIN_TABLE_PREFIX d = 0 →
  d !! METADATA = None →
  Z.of_nat (length rows) `mod` n ≤ 2147483647 →
  ∃ d', roundrobinpartition name n (at_rest d) = Returned tt (at_rest d')
      ∧ catalog RROBIN_TABLE_PREFIX d' = n
      ∧ d' !! name = Some (Ratings rows)
      ∧ (∀ i, 0 ≤ i < n →
           ∃ part, d' !! rrobin_part i = Some (Ratings part)
                 ∧ ∀ k : nat, part !! k = rows !! Z.to_nat (i + Z.of_nat k * n))
      ∧ d' !! METADATA = Some (Metadata [Z.of_nat (length rows) `mod` n])
      ∧ catalog RANGE_TABLE_PREFIX d' = catalog RANGE_TABLE_PREFIX d
      ∧ (∀ k, k ≠ METADATA → (∀ i, k ≠ rrobin_part i) → d' !! k = d !! k).
Proof.
  intros Hn Hname Hcat Hmeta Hseed.
  destruct (roundrobinpartition_distributes name n rows d Hn Hname Hcat Hmeta Hseed)
    as (d' & Hrun & (Hc & Hbase & Hparts & Hcur & _ & _) & Hrange & Hframe).
  exists d'. repeat split; try done.
  intros i Hi. exists (where_rnum n i rows). split; [by apply Hparts|].
  intros k. by apply where_rnum_lookup.
Qed.

Lemma roundrobinpartition_establishes_witness :
  ∃ d', roundrobinpartition "ratings" 3 (at_rest ratings_only) = Returned tt (at_rest d')
      ∧ catalog RROBIN_TABLE_PREFIX d' = 3
      ∧ d' !! "ratings" = Some (Ratings seven_rows)
      ∧ (∀ i, 0 ≤ i < 3 →
           ∃ part, d' !! rrobin_part i = Some (Ratings part)
                 ∧ ∀ k : nat, part !! k = seven_rows !! Z.to_nat (i + Z.of_nat k * 3))
      ∧ d' !! METADATA = Some (Metadata [1])
      ∧ catalog RANGE_TABLE_PREFIX d' = 0
      ∧ (∀ k, k ≠ METADATA → (∀ i, k ≠ rrobin_part i) → d' !! k = ratings_only !! k).
Proof.
  apply (roundrobinpartition_establishes "ratings" 3 seven_rows ratings_only).
  - lia.
  - reflexivity.
  - reflexivity.
  - reflexivity.
  - vm_compute. discriminate.
Defined.

(** ** Round-robin inserts after the bulk build *)

(** A row appended to the table falls on the bucket of its position. *)
Lemma where_rnum_snoc n i rows r :
  0 < n →
  where_rnum n i (rows ++ [r])
  = where_rnum n i rows
    ++ (if Z.of_nat (length rows) `mod` n =? i then [r] else []).
Proof.
  intros Hn. unfold where_rnum, row_number.
  rewrite length_app. cbn [length].
  replace (length rows + 1)%nat with (S (length rows)) by lia.
  rewrite seqZ_S, zip_with_app by (by rewrite length_seqZ, Nat2Z.id).
  rewrite List.filter_app, map_app. f_equal.
  cbn [zip_with List.filter fst].
  replace (1 + Z.of_nat (length rows) - 1) with (Z.of_nat (length rows)) by lia.
  rewrite Z.rem_mod_nonneg by lia.
  by destruct (Z.of_nat (length rows) `mod` n =? i).
Qed.

Lemma rr_distributed_ready n name all cur d :
  rr_distributed n name all cur d → rr_ready n name cur d.
Proof.
  intros (Hcat & Hname & Hparts & Hm & _ & _).
  split; [done|]. split; [eauto|]. split; [eauto|done].
Qed.

Lemma rr_distributed_inserted n name all cur r d :
  0 < n → rr_distributed n name all cur d →
  rr_distributed n name (all ++ [r]) (cur + 1) (rr_inserted n name r cur d).
Proof.
  intros Hn Hd. pose proof (rr_distributed_ready _ _ _ _ _ Hd) as Hready.
  destruct (rr_ready_inserted n name r cur d Hn Hready) as (Hcat' & _ & _ & Hm').
  destruct Hd as (Hcat & Hname & Hparts & Hm & Hcur & Hne).
  pose proof (Z.mod_pos_bound cur n Hn) as Hb.
  assert (name ≠ METADATA) as HnM by (by eapply ratings_not_metadata).
  assert (rr_inserted n name r cur d
          = <[rrobin_part (cur `mod` n) := Ratings (where_rnum n (cur `mod` n) all ++ [r])]>
              (<[METADATA := Metadata [cur + 1]]> (<[name := Ratings (all ++ [r])]> d))) as Heq.
  { unfold rr_inserted. rewrite (with_row_insert name r all d Hname).
    apply with_row_insert.
    rewrite lookup_insert_ne by (apply not_eq_sym, rrobin_part_not_metadata).
    rewrite lookup_insert_ne by apply Hne. apply Hparts. lia. }
  split; [done|]. split; [|split; [|split; [done|split; [|done]]]].
  - rewrite Heq, lookup_insert_ne by (apply not_eq_sym, Hne).
    rewrite lookup_insert_ne by (by apply not_eq_sym). apply lookup_insert_eq.
  - intros i Hi. rewrite Heq, where_rnum_snoc by done. rewrite <- Hcur.
    destruct (Z.eqb_spec (cur `mod` n) i) as [->|Hi'].
    + apply lookup_insert_eq.
    + rewrite app_nil_r, lookup_insert_ne by (intros E; by apply rrobin_part_inj in E).
      rewrite lookup_insert_ne by (apply not_eq_sym, rrobin_part_not_metadata).
      rewrite lookup_insert_ne by apply Hne. by apply Hparts.
  - rewrite length_app. cbn [length].
    replace (Z.of_nat (length all + 1)) with (Z.of_nat (length all) + 1) by lia.
    rewrite (Z.add_mod cur), (Z.add_mod (Z.of_nat _)), Hcur by lia. done.
Qed.

Lemma roundrobininsert_all_distributed n name records :
  0 < n → Forall valid_record records →
  ∀ all cur d, rr_distributed n name all cur d →
    -2147483648 ≤ cur + 1 → cur + Z.of_nat (length records) ≤ 2147483647 →
    ∃ d', roundrobininsert_all name records (at_rest d) = Returned tt (at_rest d')
        ∧ rr_distributed n name (all ++ records) (cur + Z.of_nat (length records)) d'.
Proof.
  intros Hn. induction 1 as [|r records Hr Hrs IH]; intros all cur d Hd Hlo Hhi.
  - exists d. split; [done|]. by rewrite app_nil_r, Z.add_0_r.
  - cbn [length] in *. unfold roundrobininsert_all. cbn [for_each].
    rewrite bind_eq, (roundrobininsert_step n name r cur d)
      by first [done | by eapply rr_distributed_ready | lia].
    destruct (IH (all ++ [r]) (cur + 1) (rr_inserted n name r cur d))
      as (d' & Hrun & Hd'); [by apply rr_distributed_inserted|lia|lia|].
    exists d'. split; [exact Hrun|].
    rewrite <- app_assoc in Hd'. cbn [app] in Hd'.
    by replace (cur + Z.of_nat (S (length records)))
      with (cur + 1 + Z.of_nat (length records)) by lia.
Qed.

Lemma partitions_distributed n name all cur d :
  rr_distributed n name all cur d →
  partitions RROBIN_TABLE_PREFIX n d = map (λ i, where_rnum n i all) (range n).
Proof.
  intros (_ & _ & Hparts & _). unfold partitions.
  apply map_ext_in. intros i Hi%list_elem_of_In%elem_of_seqZ.
  unfold rows_of. fold (rrobin_part i). rewrite Hparts by lia. done.
Qed.

(** X9. The round-robin bulk build followed by inserts.  On a store with the
    ratings table, an empty round-robin catalog and no cursor table, the
    bulk build with N > 0 partitions and then any sequence of inserts of
    well-formed records (the cursor staying within its 32-bit column) all
    return with their writes committed; afterwards the ratings table holds
    the old rows followed by the inserted records, the partitions taken
    together hold exactly the rows of the ratings table, each as often as
    there, and the sizes of any two partitions differ by at most one. *)
Theorem roundrobin_build_then_inserts name n rows records d :
  0 < n →
  d !! name = Some (Ratings rows) →
  catalog RROBIN_TABLE_PREFIX d = 0 →
  d !! METADATA = None →
  Forall valid_record records →
  Z.of_nat (length rows) `mod` n + Z.of_nat (length records) ≤ 2147483647 →
  ∃ d1 d2, roundrobinpartition name n (at_rest d) = Returned tt (at_rest d1)
    ∧ roundrobininsert_all name records (at_rest d1) = Returned tt (at_rest d2)
    ∧ d2 !! name = Some (Ratings (rows ++ records))
    ∧ concat (partitions RROBIN_TABLE_PREFIX n d2) ≡ₚ rows ++ records
    ∧ (∀ i j, 0 ≤ i < n → 0 ≤ j < n →
         (length (rows_of d2 (rrobin_part i)) ≤ S (length (rows_of d2 (rrobin_part j))))%nat).
Proof.
  intros Hn Hname Hcat Hmeta Hvalid Hbound.
  pose proof (Z.mod_pos_bound (Z.of_nat (length rows)) n Hn) as Hb.
  destruct (roundrobinpartition_distributes name n rows d) as (d1 & Hrun1 & Hd1 & _);
    [done..|lia|].
  destruct (roundrobininsert_all_distributed n name records Hn Hvalid rows _ d1 Hd1)
    as (d2 & Hrun2 & Hd2); [lia|lia|].
  exists d1, d2. split; [done|]. split; [done|].
  pose proof (partitions_distributed _ _ _ _ _ Hd2) as Hp.
  destruct Hd2 as (_ & Hname2 & Hparts2 & _).
  split; [done|]. split.
  - rewrite Hp. by apply where_rnum_partition.
  - intros i j Hi Hj. unfold rows_of. rewrite !Hparts2 by done.
    by apply where_rnum_balanced.
Qed.

Lemma roundrobin_build_then_inserts_witness :
  ∃ d1 d2, roundrobinpartition "ratings" 3 (at_rest ratings_only) = Returned tt (at_rest d1)
    ∧ roundrobininsert_all "ratings" [(8, 12, three); (9, 12, five)] (at_rest d1)
      = Returned tt (at_rest d2)
    ∧ d2 !! "ratings" = Some (Ratings (seven_rows ++ [(8, 12, three); (9, 12, five)]))
    ∧ concat (partitions RROBIN_TABLE_PREFIX 3 d2)
      ≡ₚ seven_rows ++ [(8, 12, three); (9, 12, five)]
    ∧ (∀ i j, 0 ≤ i < 3 → 0 ≤ j < 3 →
         (length (rows_of d2 (rrobin_part i)) ≤ S (length (rows_of d2 (rrobin_part j))))%nat).
Proof.
  apply (roundrobin_build_then_inserts "ratings" 3 seven_rows
           [(8, 12, three); (9, 12, five)] ratings_only).
  - lia.
  - reflexivity.
  - reflexivity.
  - reflexivity.
  - repeat constructor.
  - vm_compute. discriminate.
Defined.

(** X10. Incremental and bulk routing agree for round robin.  Under the
    hypotheses of X9, the partitions left by the bulk build followed by the
    inserts are, table by table, the partitions a bulk build from scratch
    makes of the ratings table that already holds the inserted records; the
    stored cursor, reduced modulo N, is the cursor of that build. *)
Theorem roundrobin_inserts_agree_with_build name n rows records d :
  0 < n →
  d !! name = Some (Ratings rows) →
  catalog RROBIN_TABLE_PREFIX d = 0 →
  d !! METADATA = None →
  Forall valid_record records →
  Z.of_nat (length rows) `mod` n + Z.of_nat (length records) ≤ 2147483647 →
  ∃ d1 d2 d3 cur2 cur3,
    roundrobinpartition name n (at_rest d) = Returned tt (at_rest d1)
    ∧ roundrobininsert_all name records (at_rest d1) = Returned tt (at_rest d2)
    ∧ roundrobinpartition name n (at_rest (<[name := Ratings (rows ++ records)]> d))
      = Returned tt (at_rest d3)
    ∧ (∀ i, 0 ≤ i < n → d2 !! rrobin_part i = d3 !! rrobin_part i)
    ∧ d2 !! name = d3 !! name
    ∧ d2 !! METADATA = Some (Metadata [cur2])
    ∧ d3 !! METADATA = Some (Metadata [cur3])
    ∧ cur2 `mod` n = cur3.
Proof.
  intros Hn Hname Hcat Hmeta Hvalid Hbound.
  pose proof (Z.mod_pos_bound (Z.of_nat (length rows)) n Hn) as Hb.
  pose proof (Z.mod_pos_bound (Z.of_nat (length (rows ++ records))) n Hn) as Hb'.
  destruct (roundrobinpartition_distributes name n rows d) as (d1 & Hrun1 & Hd1 & _);
    [done..|lia|].
  destruct (roundrobininsert_all_distributed n name records Hn Hvalid rows _ d1 Hd1)
    as (d2 & Hrun2 & Hd2); [lia|lia|].
  assert (name ≠ METADATA) as HnM by (intros ->; by rewrite Hmeta in Hname).
  destruct (roundrobinpartition_distributes name n (rows ++ records)
              (<[name := Ratings (rows ++ records)]> d)) as (d3 & Hrun3 & Hd3 & _).
  - done.
  - apply lookup_insert_eq.
  - rewrite catalog_insert_existing; [done|by rewrite Hname].
  - by rewrite lookup_insert_ne.
  - destruct Hd2 as (_ & _ & _ & _ & Hcur & _).
    rewrite <- Hcur. etrans; [apply Z.mod_le; lia|]. lia.
  - destruct Hd2 as (_ & Hname2 & Hparts2 & Hm2 & Hcur2 & _).
    destruct Hd3 as (_ & Hname3 & Hparts3 & Hm3 & _ & _).
    eexists d1, d2, d3, _, _. split; [done|]. split; [done|]. split; [done|].
    split; [|split; [|split; [|split]]].
    + intros i Hi. by rewrite Hparts2, Hparts3.
    + by rewrite Hname2, Hname3.
    + exact Hm2.
    + exact Hm3.
    + exact Hcur2.
Qed.

Lemma roundrobin_inserts_agree_with_build_witness :
  ∃ d1 d2 d3 cur2 cur3,
    roundrobinpartition "ratings" 3 (at_rest ratings_only) = Returned tt (at_rest d1)
    ∧ roundrobininsert_all "ratings" [(8, 12, three); (9, 12, five)] (at_rest d1)
      = Returned tt (at_rest d2)
    ∧ roundrobinpartition "ratings" 3
        (at_rest (<["ratings" := Ratings (seven_rows ++ [(8, 12, three); (9, 12, five)])]>
                    ratings_only))
      = Returned tt (at_rest d3)
    ∧ (∀ i, 0 ≤ i < 3 → d2 !! rrobin_part i = d3 !! rrobin_part i)
    ∧ d2 !! "ratings" = d3 !! "ratings"
    ∧ d2 !! METADATA = Some (Metadata [cur2])
    ∧ d3 !! METADATA = Some (Metadata [cur3])
    ∧ cur2 `mod` 3 = cur3.
Proof.
  apply (roundrobin_inserts_agree_with_build "ratings" 3 seven_rows
           [(8, 12, three); (9, 12, five)] ratings_only).
  - lia.
  - reflexivity.
  - reflexivity.
  - reflexivity.
  - repeat constructor.
  - vm_compute. discriminate.
Defined.

(** ** The order of float8 values *)

Lemma float8_cmp_key (a b : float) :
  float8_cmp a b
  = match (float8_key a).1.1 ?= (float8_key b).1.1 with
    | Eq => match (float8_key a).1.2 ?= (float8_key b).1.2 with
            | Eq => (float8_key a).2 ?= (float8_key b).2
            | c => c
            end
    | c => c
    end.
Proof.
  destruct a as [[]|[]| |[] ma ea], b as [[]|[]| |[] mb eb]; try reflexivity;
    unfold float8_cmp, SFcompare, float8_key; cbn [fst snd];
    rewrite ?Z.compare_refl.
  rewrite Z.compare_opp, (Z.compare_antisym ea eb).
  by destruct (ea ?= eb).
Qed.

Lemma float8_le_key (a b : float) :
  float8_le a b = true ↔ key_le (float8_key a) (float8_key b).
Proof.
  unfold float8_le, key_le. rewrite float8_cmp_key.
  destruct (float8_key a) as [[c1 e1] m1], (float8_key b) as [[c2 e2] m2].
  cbn [fst snd].
  destruct (Z.compare_spec c1 c2); [|split; [lia|done]|split; [done|lia]].
  destruct (Z.compare_spec e1 e2); [|split; [lia|done]|split; [done|lia]].
  destruct (Z.compare_spec m1 m2); split; try done; lia.
Qed.

Lemma float8_gt_not_le (a b : float) : float8_gt a b = negb (float8_le a b).
Proof. unfold float8_gt, float8_le. by destruct (float8_cmp a b). Qed.

Lemma float8_le_trans (a b c : float) :
  float8_le a b = true → float8_le b c = true → float8_le a c = true.
Proof. rewrite !float8_le_key. unfold key_le. lia. Qed.

Lemma float8_le_total (a b : float) : float8_le a b = true ∨ float8_le b a = true.
Proof. rewrite !float8_le_key. unfold key_le. lia. Qed.

(** On ratings, the order of the storage layer is Python's. *)
Lemma leb_float8_le (a b : float) : leb a b = true → float8_le a b = true.
Proof.
  unfold leb, SFleb, float8_le, float8_cmp.
  by destruct (SFcompare a b) as [[]|].
Qed.

(** ** The range bulk build *)

Example bounds_line_up_upto_12 :
  map bounds_line_up (seqZ 1 12)
  = [true; true; true; true; true; true; true; true; false; true; false; false].
Proof. vm_compute. reflexivity. Qed.

Lemma range_tables_lookup_other delta rows idxs (d : gmap string table) name :
  (∀ i, i ∈ idxs → name ≠ range_part i) →
  range_tables delta rows d idxs !! name = d !! name.
Proof.
  revert d. induction idxs as [|i idxs IH]; intros d Hne; [done|].
  unfold range_tables in *. cbn [foldl]. rewrite IH.
  - apply lookup_insert_ne. intros E. by apply (Hne i); [left|].
  - intros j Hj. apply Hne. by right.
Qed.

Lemma range_tables_lookup_part delta rows idxs (d : gmap string table) i :
  i ∈ idxs →
  range_tables delta rows d idxs !! range_part i
  = Some (Ratings (range_bucket delta i rows)).
Proof.
  revert d. induction idxs as [|j idxs IH]; intros d Hin; [by apply elem_of_nil in Hin|].
  unfold range_tables in *. cbn [foldl].
  destruct (decide (i ∈ idxs)) as [Hi|Hi]; [by apply IH|].
  apply elem_of_cons in Hin as [->|?]; [|done].
  fold (range_tables delta rows (<[range_part j := Ratings (range_bucket delta j rows)]> d) idxs).
  rewrite range_tables_lookup_other.
  - apply lookup_insert_eq.
  - intros k Hk E. apply range_part_inj in E. by subst.
Qed.

Lemma range_loop_body name delta rows i c :
  is_Some (bucket_bounds delta i) →
  pending c !! name = Some (Ratings rows) →
  pending c !! range_part i = None →
  (fi ← lift (of_int i);
   let minRange := mul fi delta in
   let maxRange := add minRange delta in
   let table_name := RANGE_TABLE_PREFIX +:+ str i in
   execute (create_table table_name);;
   if i =? 0
   then execute (insert_select_range table_name name true minRange maxRange)
   else execute (insert_select_range table_name name false minRange maxRange)) c
  = Returned tt {| committed := committed c;
                   pending := <[range_part i := Ratings (range_bucket delta i rows)]> (pending c) |}.
Proof.
  intros [[lo hi] Hb] Hname Hfresh.
  assert (name ≠ range_part i) as Hne by (intros ->; by rewrite Hfresh in Hname).
  unfold range_bucket. rewrite Hb. unfold bucket_bounds in Hb.
  rewrite bind_eq. destruct (of_int i) as [fi|]; [|done]. cbn [lift]. cbv zeta in *.
  destruct (is_finite (mul fi delta)) eqn:Hflo; [|done].
  destruct (is_finite (add (mul fi delta) delta)) eqn:Hfhi; [|done].
  cbn [andb] in Hb. injection Hb as <- <-.
  fold (range_part i). rewrite bind_eq. unfold execute at 1, create_table.
  rewrite Hfresh. cbn [pending committed].
  assert (∀ b, execute (insert_select_range (range_part i) name b (mul fi delta)
                          (add (mul fi delta) delta))
                 {| committed := committed c;
                    pending := <[range_part i := Ratings []]> (pending c) |}
               = Returned tt {| committed := committed c;
                                pending := <[range_part i := Ratings
                                   (where_range b (mul fi delta) (add (mul fi delta) delta) rows)]>
                                   (pending c) |}) as Hexec.
  { intros b. unfold execute, insert_select_range, literal, insert_select.
    rewrite Hflo, Hfhi. cbn [pending committed].
    rewrite lookup_insert_eq, lookup_insert_ne, Hname by done.
    by rewrite insert_insert_eq. }
  destruct (i =? 0); apply Hexec.
Qed.

Lemma range_loop name delta rows idxs c :
  NoDup idxs →
  (∀ i, i ∈ idxs → is_Some (bucket_bounds delta i)) →
  pending c !! name = Some (Ratings rows) →
  (∀ i, i ∈ idxs → pending c !! range_part i = None) →
  for_each idxs (λ i,
    fi ← lift (of_int i);
    let minRange := mul fi delta in
    let maxRange := add minRange delta in
    let table_name := RANGE_TABLE_PREFIX +:+ str i in
    execute (create_table table_name);;
    if i =? 0
    then execute (insert_select_range table_name name true minRange maxRange)
    else execute (insert_select_range table_name name false minRange maxRange)) c
  = Returned tt {| committed := committed c;
                   pending := range_tables delta rows (pending c) idxs |}.
Proof.
  intros Hnd. revert c. induction Hnd as [|i idxs Hi Hnd IH]; intros c Hb Hname Hfresh.
  - by destruct c.
  - cbn [for_each]. rewrite bind_eq. cbv zeta.
    pose proof (range_loop_body name delta rows i c (Hb i ltac:(by left)) Hname
                  (Hfresh i ltac:(by left))) as Hbody.
    cbv zeta in Hbody. rewrite Hbody. clear Hbody.
    assert (name ≠ range_part i) as Hne.
    { intros ->. rewrite (Hfresh i) in Hname by (by left). done. }
    rewrite IH; cbn [pending committed].
    + reflexivity.
    + intros j Hj. apply Hb. by right.
    + by rewrite lookup_insert_ne.
    + intros j Hj. rewrite lookup_insert_ne; [apply Hfresh; by right|].
      intros E. apply range_part_inj in E. by subst.
Qed.

Lemma range_part_not_like_rrobin i :
  relname_like (RROBIN_TABLE_PREFIX +:+ "%") (range_part i) = false.
Proof. reflexivity. Qed.

Lemma catalog_range_tables delta rows idxs (d : gmap string table) :
  NoDup idxs → (∀ i, i ∈ idxs → d !! range_part i = None) →
  catalog RANGE_TABLE_PREFIX (range_tables delta rows d idxs)
  = catalog RANGE_TABLE_PREFIX d + Z.of_nat (length idxs)
  ∧ catalog RROBIN_TABLE_PREFIX (range_tables delta rows d idxs)
    = catalog RROBIN_TABLE_PREFIX d.
Proof.
  intros Hnd. revert d. induction Hnd as [|i idxs Hi Hnd IH]; intros d Hfresh.
  - cbn. split; [lia|done].
  - unfold range_tables. cbn [foldl length].
    fold (range_tables delta rows (<[range_part i := Ratings (range_bucket delta i rows)]> d) idxs).
    destruct (IH (<[range_part i := Ratings (range_bucket delta i rows)]> d)) as [IH1 IH2].
    { intros j Hj. rewrite lookup_insert_ne; [apply Hfresh; by right|].
      intros E. apply range_part_inj in E. by subst. }
    rewrite IH1, IH2, !catalog_insert_fresh by (apply Hfresh; by left).
    rewrite range_part_like, range_part_not_like_rrobin. lia.
Qed.

Lemma rangepartition_run name n fn delta rows c :
  0 < n →
  of_int n = Ok fn → truediv five fn = Ok delta →
  (∀ i, 0 ≤ i < n → is_Some (bucket_bounds delta i)) →
  pending c !! name = Some (Ratings rows) →
  (∀ i, 0 ≤ i < n → pending c !! range_part i = None) →
  rangepartition name n c
  = Returned tt (at_rest (range_tables delta rows (pending c) (range n))).
Proof.
  intros Hn Hfn Hdelta Hb Hname Hfresh. unfold rangepartition.
  rewrite (proj2 (Z.leb_gt n 0) Hn), Hfn, bind_eq. cbn [lift].
  rewrite Hdelta, bind_eq. cbn [lift]. rewrite bind_eq.
  rewrite (range_loop name delta rows);
    [done|apply NoDup_seqZ| |done|];
    intros i Hi%elem_of_seqZ; [apply Hb|apply Hfresh]; lia.
Qed.

Lemma float8_ge_le (a b : float) : float8_ge a b = float8_le b a.
Proof.
  unfold float8_ge, float8_le. rewrite !float8_cmp_key.
  destruct (float8_key a) as [[c1 e1] m1], (float8_key b) as [[c2 e2] m2].
  cbn [fst snd].
  rewrite (Z.compare_antisym c1 c2), (Z.compare_antisym e1 e2), (Z.compare_antisym m1 m2).
  by destruct (c1 ?= c2), (e1 ?= e2), (m1 ?= m2).
Qed.

Lemma float8_le_false_key (a b : float) :
  float8_le a b = false ↔ ¬ key_le (float8_key a) (float8_key b).
Proof. by rewrite <- not_true_iff_false, float8_le_key. Qed.

(** Two adjacent buckets, the upper bound [m] of the first and the lower
    bound [m'] of the second being the same value, cover the interval from
    the lower bound of the first to the upper bound of the second, and no
    rating is in both. *)
Lemma bucket_split (lo0 m m' hi r : float) :
  float8_le lo0 m = true → float8_le m m' = true → float8_le m' m = true →
  float8_le m' hi = true →
  float8_le lo0 r && float8_le r hi
  = (float8_le lo0 r && float8_le r m) || (float8_gt r m' && float8_le r hi)
  ∧ (float8_le lo0 r && float8_le r m) && (float8_gt r m' && float8_le r hi) = false.
Proof.
  rewrite float8_gt_not_le, !float8_le_key. intros H1 H2 H3 H4.
  destruct (float8_le lo0 r) eqn:E1, (float8_le r hi) eqn:E2,
    (float8_le r m) eqn:E3, (float8_le r m') eqn:E4;
    try (split; reflexivity); exfalso;
    rewrite ?float8_le_key, ?float8_le_false_key in *;
    unfold key_le in *;
    destruct (float8_key lo0) as [[? ?] ?], (float8_key m) as [[? ?] ?],
      (float8_key m') as [[? ?] ?], (float8_key hi) as [[? ?] ?],
      (float8_key r) as [[? ?] ?]; cbn [fst snd] in *; lia.
Qed.

Lemma filter_disjoint_union {A} (f g h : A → bool) (l : list A) :
  (∀ x, In x l → h x = f x || g x ∧ f x && g x = false) →
  List.filter f l ++ List.filter g l ≡ₚ List.filter h l.
Proof.
  induction l as [|x l IH]; intros H; [done|].
  cbn [List.filter]. destruct (H x (or_introl eq_refl)) as [Hh Hd].
  specialize (IH (λ y Hy, H y (or_intror Hy))).
  rewrite Hh. destruct (f x), (g x); try discriminate; cbn [orb app].
  - by rewrite IH.
  - by rewrite <- Permutation_middle, IH.
  - exact IH.
Qed.

Lemma filter_all {A} (f : A → bool) (l : list A) :
  Forall (λ x, f x = true) l → List.filter f l = l.
Proof. induction 1 as [|x l Hx _ IH]; [done|]. cbn. by rewrite Hx, IH. Qed.

Lemma bounds_line_up_inv n :
  bounds_line_up n = true →
  ∃ fn delta, of_int n = Ok fn ∧ truediv five fn = Ok delta
    ∧ ∀ i, 0 ≤ i < n →
        ∃ lo hi, bucket_bounds delta i = Some (lo, hi)
          ∧ float8_le lo hi = true
          ∧ (i = 0 → float8_le lo zero = true)
          ∧ (i = n - 1 → float8_le five hi = true)
          ∧ (i ≠ n - 1 →
             ∃ lo' hi', bucket_bounds delta (i + 1) = Some (lo', hi')
               ∧ float8_le hi lo' = true ∧ float8_le lo' hi = true).
Proof.
  unfold bounds_line_up. intros H.
  destruct (of_int n) as [fn|] eqn:Hfn; [|done].
  destruct (truediv five fn) as [delta|] eqn:Hdelta; [|done].
  exists fn, delta. split; [done|]. split; [done|].
  intros i Hi. rewrite forallb_forall in H.
  specialize (H i). rewrite <- list_elem_of_In in H.
  specialize (H (proj2 (elem_of_seqZ 0 n i) ltac:(lia))).
  destruct (bucket_bounds delta i) as [[lo hi]|]; [|done].
  apply andb_prop in H as [H Hlast]. apply andb_prop in H as [Hord Hfirst].
  exists lo, hi. split; [done|]. split; [done|]. split; [|split].
  - intros ->. exact Hfirst.
  - intros ->. by rewrite Z.eqb_refl in Hlast.
  - intros Hne. rewrite (proj2 (Z.eqb_neq i (n - 1)) Hne) in Hlast.
    destruct (bucket_bounds delta (i + 1)) as [[lo' hi']|]; [|done].
    apply andb_prop in Hlast as [? ?]. by exists lo', hi'.
Qed.

(** The first [k] buckets of the bulk build hold, taken together, the rows
    between the first lower bound and the upper bound of bucket [k - 1]. *)
Lemma range_buckets_prefix delta n rows :
  (∀ i, 0 ≤ i < n →
     ∃ lo hi, bucket_bounds delta i = Some (lo, hi)
       ∧ float8_le lo hi = true
       ∧ (i = 0 → float8_le lo zero = true)
       ∧ (i = n - 1 → float8_le five hi = true)
       ∧ (i ≠ n - 1 →
          ∃ lo' hi', bucket_bounds delta (i + 1) = Some (lo', hi')
            ∧ float8_le hi lo' = true ∧ float8_le lo' hi = true)) →
  ∀ k : nat, (0 < k)%nat → Z.of_nat k ≤ n →
    ∃ lo0 hi0 lok hik,
      bucket_bounds delta 0 = Some (lo0, hi0)
      ∧ bucket_bounds delta (Z.of_nat k - 1) = Some (lok, hik)
      ∧ float8_le lo0 hik = true
      ∧ concat (map (λ i, range_bucket delta i rows) (seqZ 0 (Z.of_nat k)))
        ≡ₚ List.filter (λ r, float8_le lo0 (rating_of r) && float8_le (rating_of r) hik) rows.
Proof.
  intros Hchain k. induction k as [|k IH]; [lia|]. intros _ Hk.
  destruct k as [|k].
  - destruct (Hchain 0) as (lo & hi & Hb & Hord & _); [lia|].
    exists lo, hi, lo, hi. split; [done|]. split; [done|]. split; [done|].
    change (seqZ 0 (Z.of_nat 1)) with [0]. cbn [map concat]. rewrite app_nil_r.
    unfold range_bucket. rewrite Hb. cbn [Z.eqb]. unfold where_range.
    erewrite List.filter_ext; [reflexivity|].
    intros r. cbv beta. by rewrite float8_ge_le.
  - destruct IH as (lo0 & hi0 & lok & hik & Hb0 & Hbk & Hle & Hperm); [lia|lia|].
    replace (Z.of_nat (S k) - 1) with (Z.of_nat k) in Hbk by lia.
    destruct (Hchain (Z.of_nat k)) as (lo & hi & Hb & _ & _ & _ & Hnext); [lia|].
    rewrite Hbk in Hb. injection Hb as <- <-.
    destruct Hnext as (lo' & hi' & Hb' & Hup & Hdown); [lia|].
    destruct (Hchain (Z.of_nat k + 1)) as (lo2 & hi2 & Hb2 & Hord' & _); [lia|].
    rewrite Hb' in Hb2. injection Hb2 as <- <-.
    exists lo0, hi0, lo', hi'. split; [done|]. split.
    { by replace (Z.of_nat (S (S k)) - 1) with (Z.of_nat k + 1) by lia. }
    split.
    { eapply float8_le_trans; [exact Hle|].
      eapply float8_le_trans; [exact Hup|exact Hord']. }
    rewrite (seqZ_S 0 (S k)), map_app, concat_app, Hperm.
    cbn [map concat]. rewrite app_nil_r.
    replace (0 + Z.of_nat (S k)) with (Z.of_nat k + 1) by lia.
    unfold range_bucket. rewrite Hb'.
    rewrite (proj2 (Z.eqb_neq (Z.of_nat k + 1) 0)) by lia.
    unfold where_range. apply filter_disjoint_union.
    intros r _. by apply bucket_split.
Qed.

(** X11. The range bulk build, where the float bounds line up.  For N > 0
    such that the bounds the code computes in binary64 are in order, start at
    most at 0, meet (each upper bound is the same value as the next lower
    bound) and end at least at 5.0: on a store with the ratings table and an
    empty range catalog, every rating in [0, 5], the bulk build returns with
    everything committed; the N partition tables exist, taken together they
    hold exactly the rows of the ratings table, each as often as there, the
    range catalog reports N, and the ratings table and the round-robin
    catalog are unchanged. *)
Theorem rangepartition_exact name n rows d :
  0 < n →
  bounds_line_up n = true →
  d !! name = Some (Ratings rows) →
  catalog RANGE_TABLE_PREFIX d = 0 →
  Forall (λ r, valid_rating (rating_of r)) rows →
  ∃ d', rangepartition name n (at_rest d) = Returned tt (at_rest d')
      ∧ d' !! name = Some (Ratings rows)
      ∧ (∀ i, 0 ≤ i < n → ∃ part, d' !! range_part i = Some (Ratings part))
      ∧ concat (partitions RANGE_TABLE_PREFIX n d') ≡ₚ rows
      ∧ catalog RANGE_TABLE_PREFIX d' = n
      ∧ catalog RROBIN_TABLE_PREFIX d' = catalog RROBIN_TABLE_PREFIX d.
Proof.
  intros Hn Hline Hname Hcat Hvalid.
  destruct (bounds_line_up_inv n Hline) as (fn & delta & Hfn & Hdelta & Hchain).
  assert (∀ i, d !! range_part i = None) as Hfresh.
  { intros i. destruct (d !! range_part i) eqn:E; [|done].
    pose proof (catalog_zero_no_match _ _ (range_part i) Hcat (mk_is_Some _ _ E)) as Hno.
    by rewrite range_part_like in Hno. }
  assert (∀ i, name ≠ range_part i) as Hne.
  { intros i ->. by rewrite Hfresh in Hname. }
  destruct (catalog_range_tables delta rows (range n) d) as [Hc1 Hc2];
    [apply NoDup_seqZ|by intros|].
  exists (range_tables delta rows d (range n)).
  split; [|split; [|split; [|split; [|split]]]].
  - apply (rangepartition_run name n fn delta rows (at_rest d)); try done.
    intros i Hi. destruct (Hchain i Hi) as (lo & hi & Hb & _). by rewrite Hb.
  - by rewrite range_tables_lookup_other.
  - intros i Hi. eexists. apply range_tables_lookup_part, elem_of_seqZ. lia.
  - assert (partitions RANGE_TABLE_PREFIX n (range_tables delta rows d (range n))
            = map (λ i, range_bucket delta i rows) (range n)) as ->.
    { unfold partitions. apply map_ext_in. intros i Hi%list_elem_of_In.
      unfold rows_of. fold (range_part i). by rewrite range_tables_lookup_part. }
    destruct (range_buckets_prefix delta n rows Hchain (Z.to_nat n))
      as (lo0 & hi0 & lok & hik & Hb0 & Hbk & _ & Hperm); [lia|lia|].
    rewrite Z2Nat.id in Hperm, Hbk by lia. unfold range. rewrite Hperm.
    destruct (Hchain 0) as (lo & hi & Hb & _ & Hzero & _); [lia|].
    rewrite Hb0 in Hb. injection Hb as <- <-.
    destruct (Hchain (n - 1)) as (lo & hi & Hb & _ & _ & Hfive & _); [lia|].
    rewrite Hbk in Hb. injection Hb as <- <-.
    rewrite filter_all; [done|].
    eapply Forall_impl; [exact Hvalid|].
    intros r [H0 H5]. cbv beta. apply andb_true_intro. split.
    + eapply float8_le_trans; [by apply Hzero|by apply leb_float8_le].
    + eapply float8_le_trans; [by apply leb_float8_le|by apply Hfive].
  - rewrite Hc1, Hcat. unfold range. rewrite length_seqZ. lia.
  - exact Hc2.
Qed.

Lemma rangepartition_exact_witness :
  ∃ d', rangepartition "ratings" 5 (at_rest ratings_only) = Returned tt (at_rest d')
      ∧ d' !! "ratings" = Some (Ratings seven_rows)
      ∧ (∀ i, 0 ≤ i < 5 → ∃ part, d' !! range_part i = Some (Ratings part))
      ∧ concat (partitions RANGE_TABLE_PREFIX 5 d') ≡ₚ seven_rows
      ∧ catalog RANGE_TABLE_PREFIX d' = 5
      ∧ catalog RROBIN_TABLE_PREFIX d' = 0.
Proof.
  apply (rangepartition_exact "ratings" 5 seven_rows ratings_only).
  - lia.
  - vm_compute. reflexivity.
  - reflexivity.
  - reflexivity.
  - repeat constructor.
Defined.

(** ** The catalog query *)

(** X12. count_partitions returns the number of tables the pattern
    matches, which is not negative, and commits the connection: whatever the
    caller had pending is durable afterwards.  No table changes, and a second
    call returns the same count. *)
Theorem count_partitions_commits prefix c :
  ∃ count, count_partitions prefix c = Returned count (at_rest (pending c))
         ∧ 0 ≤ count
         ∧ count_partitions prefix (at_rest (pending c))
           = Returned count (at_rest (pending c)).
Proof.
  exists (catalog prefix (pending c)).
  split; [apply count_partitions_eq|]. split; [unfold catalog; lia|].
  reflexivity.
Qed.

Lemma catalog_pos_of_match prefix (d : gmap string table) name :
  is_Some (d !! name) → relname_like (prefix +:+ "%") name = true →
  0 < catalog prefix d.
Proof.
  intros Hin Hlike.
  destruct (Z.eq_dec (catalog prefix d) 0) as [Hz|Hnz].
  - by rewrite (catalog_zero_no_match _ _ _ Hz Hin) in Hlike.
  - unfold catalog in *. lia.
Qed.

(** X13. The underscore of the prefix is a wildcard of LIKE, and the
    pattern ends in a percent sign: every table whose name is the prefix
    followed by anything, the underscore replaced by any one character,
    counts as a partition.  With such a table and no partition, a range
    insert of a well-formed record takes the count for N, targets a
    partition table that does not exist and raises, after the record was
    committed to the ratings table. *)
Theorem catalog_counts_lookalikes (a : ascii) (suffix : string) rows r name d :
  d !! ("range" +:+ String a ("part" +:+ suffix)) = Some (Ratings rows) →
  (∀ i, d !! range_part i = None) →
  (∃ base, d !! name = Some (Ratings base)) →
  valid_record r →
  0 < catalog RANGE_TABLE_PREFIX d
  ∧ ∃ e, rangeinsert name r.1.1 r.1.2 r.2 (at_rest d)
         = Raised e (at_rest (with_row name r d)).
Proof.
  intros Hlook Hfresh Hname Hr.
  assert (0 < catalog RANGE_TABLE_PREFIX d) as Hcat.
  { apply (catalog_pos_of_match _ _ ("range" +:+ String a ("part" +:+ suffix)));
      [by rewrite Hlook|].
    unfold relname_like.
    change (like ["%"%char] (list_ascii_of_string suffix) = true).
    apply like_percent. }
  split; [done|].
  pose proof Hr as (Hu & Hi & Hrating).
  destruct r as [[u i] rating]. cbn [fst snd] in *.
  unfold rangeinsert. rewrite (valid_rating_guard _ Hrating).
  rewrite bind_eq. unfold execute at 1. cbn [pending committed at_rest].
  rewrite (insert_values_with_row name (u, i, rating) d Hname Hr).
  rewrite bind_eq, count_partitions_eq. cbn [pending committed].
  rewrite catalog_with_row, (proj2 (Z.leb_gt _ 0) Hcat).
  rewrite bind_eq. unfold lift at 1.
  destruct (range_index _ rating) as [index|e]; [|by exists e].
  rewrite bind_eq. unfold execute at 1, insert_values. cbn [pending committed at_rest].
  fold (range_part index).
  destruct Hname as [base Hname].
  rewrite (with_row_insert _ _ _ _ Hname), lookup_insert_ne, Hfresh; [by eexists|].
  intros ->. by rewrite Hfresh in Hname.
Qed.

Lemma catalog_counts_lookalikes_witness :
  0 < catalog RANGE_TABLE_PREFIX range_lookalike
  ∧ ∃ e, rangeinsert "ratings" 8 12 three (at_rest range_lookalike)
         = Raised e (at_rest (with_row "ratings" (8, 12, three) range_lookalike)).
Proof.
  apply (catalog_counts_lookalikes "X" "s" [] (8, 12, three) "ratings"
           range_lookalike).
  - reflexivity.
  - intros i. unfold range_lookalike, ratings_only.
    rewrite lookup_insert_ne by (unfold range_part; simpl; discriminate).
    apply lookup_singleton_ne. unfold range_part. simpl. discriminate.
  - eexists. reflexivity.
  - repeat constructor.
Defined.

(** X14. An incremental insert with a rating in [0, 5] and an identifier
    outside the 32-bit range of its column raises on its first statement;
    nothing is written. *)
Theorem insert_identifier_out_of_range name userid itemid rating rows c :
  valid_rating rating →
  pending c !! name = Some (Ratings rows) →
  int4 userid && int4 itemid = false →
  rangeinsert name userid itemid rating c = Raised NumericValueOutOfRange c
  ∧ roundrobininsert name userid itemid rating c = Raised NumericValueOutOfRange c.
Proof.
  intros Hr Hn Hid. unfold rangeinsert, roundrobininsert.
  rewrite (valid_rating_guard _ Hr), !bind_eq.
  unfold execute, insert_values.
  by rewrite Hn, (valid_rating_literal _ Hr), Hid.
Qed.

Lemma insert_identifier_out_of_range_witness :
  rangeinsert "ratings" 4294967296 12 three (at_rest ratings_only)
  = Raised NumericValueOutOfRange (at_rest ratings_only)
  ∧ roundrobininsert "ratings" 4294967296 12 three (at_rest ratings_only)
    = Raised NumericValueOutOfRange (at_rest ratings_only).
Proof.
  apply (insert_identifier_out_of_range "ratings" 4294967296 12 three seven_rows
           (at_rest ratings_only)).
  - split; reflexivity.
  - reflexivity.
  - reflexivity.
Defined.

(** ** A range insert that succeeds *)

(** X15. A range insert of a well-formed record, started with no open
    transaction, when the catalog reports N > 0 partitions, the index
    arithmetic gives an index and the partition table of that index exists:
    the call returns with nothing left uncommitted, and the store it leaves
    is the one it started from with the record appended to the ratings
    table and to that one partition; no other table changes. *)
Theorem rangeinsert_step n name r index d :
  0 < n →
  catalog RANGE_TABLE_PREFIX d = n →
  (∃ base, d !! name = Some (Ratings base)) →
  (∃ part, d !! range_part index = Some (Ratings part)) →
  valid_record r →
  range_index n r.2 = Ok index →
  rangeinsert name r.1.1 r.1.2 r.2 (at_rest d)
  = Returned tt (at_rest (with_row (range_part index) r (with_row name r d))).
Proof.
  intros Hn Hcat Hname Hpart Hr Hidx.
  pose proof Hr as (Hu & Hi & Hrating).
  destruct r as [[u i] rating]. cbn [fst snd] in *.
  unfold rangeinsert. rewrite (valid_rating_guard _ Hrating).
  rewrite bind_eq. unfold execute at 1. cbn [pending committed at_rest].
  rewrite (insert_values_with_row name (u, i, rating) d Hname Hr).
  rewrite bind_eq, count_partitions_eq. cbn [pending committed].
  rewrite catalog_with_row, Hcat, (proj2 (Z.leb_gt n 0) Hn), Hidx.
  rewrite bind_eq. cbn [lift].
  rewrite bind_eq. unfold execute at 1. cbn [pending committed at_rest].
  fold (range_part index).
  rewrite (insert_values_with_row (range_part index) (u, i, rating)); [done| |done].
  by apply with_row_ratings.
Qed.

Lemma rangeinsert_step_witness :
  rangeinsert "ratings" 8 12 three (at_rest five_ranges)
  = Returned tt (at_rest (with_row (range_part 2) (8, 12, three)
                            (with_row "ratings" (8, 12, three) five_ranges))).
Proof.
  apply (rangeinsert_step 5 "ratings" (8, 12, three) 2 five_ranges).
  - lia.
  - vm_compute. reflexivity.
  - eexists. vm_compute. reflexivity.
  - eexists. vm_compute. reflexivity.
  - repeat constructor.
  - vm_compute. reflexivity.
Defined.
